(** * NodeAFK: a shallow embedding of [src/NodeAFK.js]

    The class [NodeAFK] extends Node's [EventEmitter].  It polls the idle
    time of the desktop, keeps a two-valued status ('online' / 'away'),
    and emits events on transitions and on timed thresholds.

    Modelling choices, all visible in the definitions below:

    - JavaScript numbers are integers of [Z] (milliseconds).  [undefined]
      is [None]; an arithmetic result that JavaScript would make [NaN] is
      [None] as well, and every comparison with it is [false].  Integer
      arithmetic on doubles is exact below 2^53, far above any duration in
      milliseconds that a caller can wait for.
    - Methods run in a monad [JS] over a [World]: the instance ([this]),
      the wall clock read by [Date.now()], the interval timers of the
      runtime, and the log of emissions.  An exception keeps the world as
      it was when it was thrown, as in JavaScript.
    - A listener is known by its identity (what [===] compares).  Calling
      a listener is recorded in the log together with the instance it can
      read at that moment; listeners are application code and are taken
      to read the instance, not to write it.
    - [EventEmitter] is Node's: a table from event names to the listeners
      in registration order. *)

From Stdlib Require Import ZArith String Ascii List Bool Lia.
From stdpp Require Import base decidable option list gmap strings pretty.

Local Open Scope string_scope.
Local Open Scope list_scope.
Local Open Scope Z_scope.

(** ** Constants *)

Definition STATUS_AWAY : string := "away".
Definition STATUS_ONLINE : string := "online".

(** ** Data *)

(** The identity of a listener function. *)
Definition Listener := nat.

(** An element of [this.timedEvents]: [{ status, duration, listener }]. *)
Module TimedEvent.
Record t := mk {
  status : option string;
  duration : option Z;
  listener : Listener
}.
End TimedEvent.

(** The instance.  [_events] is the listener table of [EventEmitter]. *)
Record NodeAFK := mkNodeAFK {
  inactivityDuration : Z;
  pollInterval : Z;
  pollIntervalId : option nat;
  timedEvents : list TimedEvent.t;
  userLastCameOnlineAt : option Z;
  currentStatus : option string;
  _events : gmap string (list Listener)
}.

(** The payload of 'status-change'. *)
Module Payload.
Record t := mk { previousStatus : string; currentStatus : string }.
End Payload.

(** One call of [emit]: the event name, the payload, the listeners that
    are invoked (in order), and the instance as those listeners see it. *)
Record Emission := mkEmission {
  em_name : string;
  em_payload : option Payload.t;
  em_listeners : list Listener;
  em_this : NodeAFK
}.

(** The world a method runs in. *)
Record World := mkWorld {
  this : NodeAFK;
  clock : nat -> Z;            (* the k-th call of Date.now() returns clock k *)
  reads : nat;                 (* calls of Date.now() so far *)
  intervals : gmap nat Z;      (* running interval timers: handle |-> period *)
  timerSeq : nat;              (* next timer handle *)
  emitted : list Emission      (* the log, oldest first *)
}.

(** ** Field updates *)

Definition set_pollIntervalId (v : option nat) (o : NodeAFK) : NodeAFK :=
  mkNodeAFK (inactivityDuration o) (pollInterval o) v (timedEvents o)
            (userLastCameOnlineAt o) (currentStatus o) (_events o).

Definition set_timedEvents (v : list TimedEvent.t) (o : NodeAFK) : NodeAFK :=
  mkNodeAFK (inactivityDuration o) (pollInterval o) (pollIntervalId o) v
            (userLastCameOnlineAt o) (currentStatus o) (_events o).

Definition set_userLastCameOnlineAt (v : option Z) (o : NodeAFK) : NodeAFK :=
  mkNodeAFK (inactivityDuration o) (pollInterval o) (pollIntervalId o)
            (timedEvents o) v (currentStatus o) (_events o).

Definition set_currentStatus (v : option string) (o : NodeAFK) : NodeAFK :=
  mkNodeAFK (inactivityDuration o) (pollInterval o) (pollIntervalId o)
            (timedEvents o) (userLastCameOnlineAt o) v (_events o).

Definition set_events (v : gmap string (list Listener)) (o : NodeAFK) : NodeAFK :=
  mkNodeAFK (inactivityDuration o) (pollInterval o) (pollIntervalId o)
            (timedEvents o) (userLastCameOnlineAt o) (currentStatus o) v.

Definition with_this (o : NodeAFK) (w : World) : World :=
  mkWorld o (clock w) (reads w) (intervals w) (timerSeq w) (emitted w).

(** ** The monad of methods *)

Inductive Outcome (A : Type) : Type :=
| Returned (a : A) (w : World)
| Thrown (message : string) (w : World).
Arguments Returned {A} a w.
Arguments Thrown {A} message w.

Definition JS (A : Type) : Type := World -> Outcome A.

Global Instance JS_ret : MRet JS := fun A a w => Returned a w.

Global Instance JS_bind : MBind JS := fun A B k m w =>
  match m w with
  | Returned a w' => k a w'
  | Thrown e w' => Thrown e w'
  end.

Definition throw {A} (message : string) : JS A := fun w => Thrown message w.

Definition get_this : JS NodeAFK := fun w => Returned (this w) w.

Definition modify_this (f : NodeAFK -> NodeAFK) : JS unit :=
  fun w => Returned tt (with_this (f (this w)) w).

(** [if (b) { m }] *)
Definition when (b : bool) (m : JS unit) : JS unit :=
  if b then m else mret tt.

(** [xs.forEach(f)] *)
Fixpoint forEach {A} (xs : list A) (f : A -> JS unit) : JS unit :=
  match xs with
  | [] => mret tt
  | x :: rest => f x ;; forEach rest f
  end.

(** The world a computation ends in, whether it returned or threw. *)
Definition world_of {A} (r : Outcome A) : World :=
  match r with Returned _ w => w | Thrown _ w => w end.

(** ** The runtime: [Date.now], [setInterval], [clearInterval] *)

Definition Date_now : JS Z := fun w =>
  Returned (clock w (reads w))
           (mkWorld (this w) (clock w) (S (reads w)) (intervals w)
                    (timerSeq w) (emitted w)).

Definition setInterval (period : Z) : JS nat := fun w =>
  Returned (timerSeq w)
           (mkWorld (this w) (clock w) (reads w)
                    (<[timerSeq w := period]> (intervals w))
                    (S (timerSeq w)) (emitted w)).

Definition clearInterval (id : nat) : JS unit := fun w =>
  Returned tt
           (mkWorld (this w) (clock w) (reads w) (delete id (intervals w))
                    (timerSeq w) (emitted w)).

(** ** JavaScript numbers: subtraction and [>=], [<] with [undefined] *)

Definition num_sub (a b : option Z) : option Z :=
  match a, b with
  | Some x, Some y => Some (x - y)
  | _, _ => None
  end.

Definition num_ge (a b : option Z) : bool :=
  match a, b with
  | Some x, Some y => bool_decide (y <= x)
  | _, _ => false
  end.

(** What a template literal prints for a value. *)
Definition show_string (v : option string) : string :=
  match v with Some s => s | None => "undefined" end.

Definition show_number (v : option Z) : string :=
  match v with Some n => pretty n | None => "undefined" end.

(** ** [EventEmitter] *)

(** [xs] without the last occurrence of [l] ([removeListener] searches
    from the end and removes one position). *)
Fixpoint remove_first (l : Listener) (xs : list Listener) : list Listener :=
  match xs with
  | [] => []
  | x :: rest => if bool_decide (x = l) then rest else x :: remove_first l rest
  end.

Definition remove_last (l : Listener) (xs : list Listener) : list Listener :=
  reverse (remove_first l (reverse xs)).

Definition listeners_of (o : NodeAFK) (eventName : string) : list Listener :=
  default [] (_events o !! eventName).

(** [super.on(eventName, listener)] *)
Definition super_on (eventName : string) (listener : Listener) : JS unit :=
  modify_this (fun o =>
    set_events (<[eventName := listeners_of o eventName ++ [listener]]> (_events o)) o).

(** [super.off(eventName, listener)]; an event left without listeners
    loses its key. *)
Definition super_off (eventName : string) (listener : Listener) : JS unit :=
  modify_this (fun o =>
    match _events o !! eventName with
    | None => o
    | Some xs =>
        match remove_last listener xs with
        | [] => set_events (delete eventName (_events o)) o
        | ys => set_events (<[eventName := ys]> (_events o)) o
        end
    end).

(** [this.removeAllListeners()] *)
Definition removeAllListeners : JS unit :=
  modify_this (set_events ∅).

(** [this.emit(eventName, payload)]: the listeners registered under the
    literal name are called, in registration order. *)
Definition emit (eventName : string) (payload : option Payload.t) : JS unit :=
  fun w =>
    Returned tt
      (mkWorld (this w) (clock w) (reads w) (intervals w) (timerSeq w)
               (emitted w ++
                [mkEmission eventName payload (listeners_of (this w) eventName)
                            (this w)])).

(** ** [parseEventName] *)

(** [[0-9]] *)
Definition is_digit (c : ascii) : bool :=
  match c with
  | "0" | "1" | "2" | "3" | "4" | "5" | "6" | "7" | "8" | "9" => true
  | _ => false
  end%char.

(** [[0-9]*] up to the end of the input. *)
Fixpoint all_digits (s : string) : bool :=
  match s with
  | EmptyString => true
  | String c rest => is_digit c && all_digits rest
  end.

(** What is left of [s] after the literal [p], if [s] starts with it. *)
Fixpoint strip_prefix (p s : string) : option string :=
  match p, s with
  | EmptyString, _ => Some s
  | String a p', String b s' =>
      if bool_decide (a = b) then strip_prefix p' s' else None
  | String _ _, EmptyString => None
  end.

(** [(:([0-9]+))?$] on what follows the status: groups 2 and 3. *)
Definition match_duration (rest : string) : option (option string * option string) :=
  match rest with
  | EmptyString => Some (None, None)
  | String ":" ds =>
      if negb (bool_decide (ds = "")) && all_digits ds
      then Some (Some rest, Some ds)
      else None
  | String _ _ => None
  end.

(** One alternative of [^(away|online)(:([0-9]+))?$]: the array
    [[whole, group 1, group 2, group 3]]. *)
Definition match_alternative (st eventName : string) : option (list (option string)) :=
  match strip_prefix st eventName with
  | None => None
  | Some rest =>
      match match_duration rest with
      | None => None
      | Some (g2, g3) => Some [Some eventName; Some st; g2; g3]
      end
  end.

(** [eventName.match(eventNameExpression)]: [None] is [null]. *)
Definition eventNameExpression_match (eventName : string) : option (list (option string)) :=
  match match_alternative STATUS_AWAY eventName with
  | Some parts => Some parts
  | None => match_alternative STATUS_ONLINE eventName
  end.

(** [Number(duration)] on a string of decimal digits. *)
Definition digit_value (c : ascii) : Z := Z.of_nat (nat_of_ascii c) - 48.

Fixpoint Number_from (acc : Z) (ds : string) : Z :=
  match ds with
  | EmptyString => acc
  | String c rest => Number_from (10 * acc + digit_value c) rest
  end.

Definition Number (ds : string) : Z := Number_from 0 ds.

(** A string in a condition: the empty string and [undefined] are false. *)
Definition truthy (v : option string) : bool :=
  match v with
  | Some s => negb (bool_decide (s = ""))
  | None => false
  end.

Module EventNameInfo.
Record t := mk {
  isTimedEvent : bool;
  status : option string;
  duration : option Z
}.
End EventNameInfo.

(** [eventNameParts[i]] *)
Definition part (eventNameParts : list (option string)) (i : nat) : option string :=
  mjoin (eventNameParts !! i).

Definition parseEventName (eventName : string) : EventNameInfo.t :=
  let eventNameInfo := EventNameInfo.mk false None None in
  match eventNameExpression_match eventName with
  | None => eventNameInfo
  | Some eventNameParts =>
      let status := part eventNameParts 0 in
      let duration := part eventNameParts 3 in
      if truthy duration then
        let status := part eventNameParts 1 in
        EventNameInfo.mk true status (Number <$> duration)
      else
        EventNameInfo.mk false status None
  end.

(** ** The methods of [NodeAFK] *)

Definition setStatus (status : string) : JS unit :=
  if negb (bool_decide (status ∈ [STATUS_AWAY; STATUS_ONLINE])) then
    throw (status +:+ " is not a valid status")
  else
    at_ ← (if bool_decide (status = STATUS_ONLINE)
           then now ← Date_now; mret (Some now)
           else mret None);
    modify_this (set_userLastCameOnlineAt at_);;
    modify_this (set_currentStatus (Some status)).

(** [new NodeAFK(inactivityDuration, pollInterval, initialStatus)]; an
    argument left out (or [undefined]) takes its default. *)
Definition constructor (inactivityDuration : Z) (pollInterval : option Z)
    (initialStatus : option string) : JS unit :=
  let pollInterval := default 1000 pollInterval in
  let initialStatus := default STATUS_ONLINE initialStatus in
  modify_this (fun _ =>
    mkNodeAFK inactivityDuration pollInterval None [] None None ∅);;
  setStatus initialStatus.

Definition destroy : JS unit :=
  o ← get_this;
  match pollIntervalId o with
  | Some id => clearInterval id
  | None => mret tt
  end;;
  modify_this (set_timedEvents []);;
  removeAllListeners.

Definition init : JS unit :=
  destroy;;
  o ← get_this;
  id ← setInterval (pollInterval o);
  modify_this (set_pollIntervalId (Some id)).

Definition on (eventName : string) (listener : Listener) : JS unit :=
  let eventNameInfo := parseEventName eventName in
  when (EventNameInfo.isTimedEvent eventNameInfo)
    (modify_this (fun o =>
       set_timedEvents
         (timedEvents o ++
          [TimedEvent.mk (EventNameInfo.status eventNameInfo)
                         (EventNameInfo.duration eventNameInfo)
                         listener]) o));;
  super_on eventName listener.

Definition off (eventName : string) (listener : Listener) : JS unit :=
  let eventNameInfo := parseEventName eventName in
  when (EventNameInfo.isTimedEvent eventNameInfo)
    (modify_this (fun o =>
       set_timedEvents
         (filter (fun timedEvent =>
                    TimedEvent.status timedEvent = EventNameInfo.status eventNameInfo
                    ∧ TimedEvent.duration timedEvent = EventNameInfo.duration eventNameInfo
                    ∧ TimedEvent.listener timedEvent = listener)
                 (timedEvents o)) o));;
  super_off eventName listener.

(** The three statements of [pollStatus], then [pollStatus] itself.  The
    idle time is what [desktopIdle.getIdleTime()] returned. *)
Definition onlineToAway (idleTime : Z) : JS unit :=
  o ← get_this;
  when (bool_decide (currentStatus o = Some STATUS_ONLINE)
        && bool_decide (inactivityDuration o ≤ idleTime))
    (emit "status-change" (Some (Payload.mk STATUS_ONLINE STATUS_AWAY));;
     emit "status:away" None;;
     setStatus STATUS_AWAY).

Definition awayToOnline (idleTime : Z) : JS unit :=
  o ← get_this;
  when (bool_decide (currentStatus o = Some STATUS_AWAY)
        && bool_decide (idleTime < inactivityDuration o))
    (emit "status-change" (Some (Payload.mk STATUS_AWAY STATUS_ONLINE));;
     emit "status:online" None;;
     setStatus STATUS_ONLINE).

(** The arrow function given to [this.timedEvents.forEach]. *)
Definition timedEventCallback (idleTime : Z) (timedEvent : TimedEvent.t) : JS unit :=
  let status := TimedEvent.status timedEvent in
  let duration := TimedEvent.duration timedEvent in
  o ← get_this;
  let awayFor :=
    bool_decide (currentStatus o = Some STATUS_AWAY)
    && bool_decide (currentStatus o = status)
    && num_ge (Some (idleTime - inactivityDuration o)) duration in
  onlineFor ← (if bool_decide (currentStatus o = Some STATUS_ONLINE)
                  && bool_decide (currentStatus o = status)
               then now ← Date_now;
                    mret (num_ge (num_sub (Some now) (userLastCameOnlineAt o)) duration)
               else mret false);
  let willEmitTimedEvent := awayFor || onlineFor in
  when willEmitTimedEvent
    (emit (show_string status +:+ ":" +:+ show_number duration) None).

Definition evalTimedEvents (idleTime : Z) : JS unit :=
  o ← get_this;
  forEach (timedEvents o) (timedEventCallback idleTime).

Definition pollStatus (idleTime : Z) : JS unit :=
  onlineToAway idleTime;;
  awayToOnline idleTime;;
  evalTimedEvents idleTime.

(** ** Notions the properties are stated with *)

(** What a computation appends to the log. *)
Definition emissions {A} (m : JS A) (w : World) : list Emission :=
  drop (length (emitted w)) (emitted (world_of (m w))).

(** A run of poll ticks, one per sampled idle time: what each tick
    appends to the log. *)
Fixpoint tickLogs (samples : list Z) (w : World) : list (list Emission) :=
  match samples with
  | [] => []
  | idleTime :: rest =>
      emissions (pollStatus idleTime) w
      :: tickLogs rest (world_of (pollStatus idleTime w))
  end.

(** The names in a log. *)
Definition names (log : list Emission) : list string := em_name <$> log.

(** The status part of a tick, before the timed events are looked at. *)
Definition transitions (idleTime : Z) : JS unit :=
  onlineToAway idleTime;; awayToOnline idleTime.

(** The two guards of [pollStatus]. *)
Definition awayGuard (o : NodeAFK) (idleTime : Z) : Prop :=
  currentStatus o = Some STATUS_ONLINE ∧ inactivityDuration o ≤ idleTime.

Definition onlineGuard (o : NodeAFK) (idleTime : Z) : Prop :=
  currentStatus o = Some STATUS_AWAY ∧ idleTime < inactivityDuration o.

Global Instance awayGuard_dec o idleTime : Decision (awayGuard o idleTime).
Proof. unfold awayGuard. apply _. Defined.

Global Instance onlineGuard_dec o idleTime : Decision (onlineGuard o idleTime).
Proof. unfold onlineGuard. apply _. Defined.

(** The name [<status>:<n>] of a timed event. *)
Definition timedName (status : string) (n : Z) : string :=
  status +:+ ":" +:+ pretty n.

(** Regular expressions, as far as the two patterns need them, and the
    strings they match from the first character to the last. *)
Inductive regex : Type :=
| Lit (s : string)
| Class (p : ascii -> bool)
| Seq (r1 r2 : regex)
| Alt (r1 r2 : regex)
| Opt (r : regex)
| Plus (r : regex).

Inductive matches : regex -> string -> Prop :=
| matches_lit s : matches (Lit s) s
| matches_class p c : p c = true -> matches (Class p) (String c "")
| matches_seq r1 r2 s1 s2 :
    matches r1 s1 -> matches r2 s2 -> matches (Seq r1 r2) (s1 +:+ s2)
| matches_alt_l r1 r2 s : matches r1 s -> matches (Alt r1 r2) s
| matches_alt_r r1 r2 s : matches r2 s -> matches (Alt r1 r2) s
| matches_opt_none r : matches (Opt r) ""
| matches_opt_some r s : matches r s -> matches (Opt r) s
| matches_plus_one r s : matches r s -> matches (Plus r) s
| matches_plus_more r s1 s2 :
    matches r s1 -> matches (Plus r) s2 -> matches (Plus r) (s1 +:+ s2).


(** [^(away|online):([0-9]+)$], the pattern of the timed names. *)
Definition timedNameExpression : regex :=
  Seq (Alt (Lit "away") (Lit "online"))
      (Seq (Lit ":") (Plus (Class is_digit))).

(** The language of [^(away|online):([0-9]+)$], in words: a status, a
    colon, and one or more characters between '0' and '9'. *)
Definition decimal (c : ascii) : Prop :=
  (nat_of_ascii "0" ≤ nat_of_ascii c ≤ nat_of_ascii "9")%nat.

Definition timedPattern (status digits : string) : Prop :=
  (status = "away" ∨ status = "online")
  ∧ digits ≠ ""
  ∧ Forall decimal (list_ascii_of_string digits).

Definition isTimedName (name : string) : Prop :=
  ∃ status digits, timedPattern status digits ∧ name = status +:+ ":" +:+ digits.

(** What one registry entry does in a tick, given the instant [now] it
    would read: whether it reads the clock, and whether it fires. *)
Definition entryReadsClock (o : NodeAFK) (timedEvent : TimedEvent.t) : bool :=
  bool_decide (currentStatus o = Some STATUS_ONLINE)
  && bool_decide (currentStatus o = TimedEvent.status timedEvent).

Definition entryFires (o : NodeAFK) (idleTime now : Z) (timedEvent : TimedEvent.t) : bool :=
  bool_decide (currentStatus o = Some STATUS_AWAY)
  && bool_decide (currentStatus o = TimedEvent.status timedEvent)
  && num_ge (Some (idleTime - inactivityDuration o)) (TimedEvent.duration timedEvent)
  || entryReadsClock o timedEvent
     && num_ge (num_sub (Some now) (userLastCameOnlineAt o))
               (TimedEvent.duration timedEvent).

Definition entryEmission (o : NodeAFK) (timedEvent : TimedEvent.t) : Emission :=
  let name := show_string (TimedEvent.status timedEvent) +:+ ":"
              +:+ show_number (TimedEvent.duration timedEvent) in
  mkEmission name None (listeners_of o name) o.

(** The log and the number of clock reads of the loop over the registry,
    started after [r] reads. *)
Fixpoint timedLog (o : NodeAFK) (clk : nat -> Z) (idleTime : Z) (r : nat)
    (entries : list TimedEvent.t) : list Emission * nat :=
  match entries with
  | [] => ([], r)
  | timedEvent :: rest =>
      let r' := if entryReadsClock o timedEvent then S r else r in
      let '(log, r'') := timedLog o clk idleTime r' rest in
      ((if entryFires o idleTime (clk r) timedEvent
        then [entryEmission o timedEvent] else []) ++ log, r'')
  end.

(** The instance after a committed status. *)
Definition committed (status : string) (at_ : option Z) (o : NodeAFK) : NodeAFK :=
  set_currentStatus (Some status) (set_userLastCameOnlineAt at_ o).

(** The two emissions of each transition, as listeners of the instance
    [o] receive them. *)
Definition awayEmissions (o : NodeAFK) : list Emission :=
  [mkEmission "status-change" (Some (Payload.mk STATUS_ONLINE STATUS_AWAY))
              (listeners_of o "status-change") o;
   mkEmission "status:away" None (listeners_of o "status:away") o].

Definition onlineEmissions (o : NodeAFK) : list Emission :=
  [mkEmission "status-change" (Some (Payload.mk STATUS_AWAY STATUS_ONLINE))
              (listeners_of o "status-change") o;
   mkEmission "status:online" None (listeners_of o "status:online") o].

(** The worlds the two transitions lead to. *)
Definition wentAway (w : World) : World :=
  mkWorld (committed STATUS_AWAY None (this w)) (clock w) (reads w)
          (intervals w) (timerSeq w) (emitted w ++ awayEmissions (this w)).

Definition cameOnline (w : World) : World :=
  mkWorld (committed STATUS_ONLINE (Some (clock w (reads w))) (this w))
          (clock w) (S (reads w)) (intervals w) (timerSeq w)
          (emitted w ++ onlineEmissions (this w)).

(** The world after the status part of a tick, and what that part
    appends to the log. *)
Definition afterTransitions (idleTime : Z) (w : World) : World :=
  if decide (awayGuard (this w) idleTime) then wentAway w
  else if decide (onlineGuard (this w) idleTime) then cameOnline w
  else w.

Definition transitionLog (idleTime : Z) (w : World) : list Emission :=
  if decide (awayGuard (this w) idleTime) then awayEmissions (this w)
  else if decide (onlineGuard (this w) idleTime) then onlineEmissions (this w)
  else [].

(** What the loop over the registry appends to the log in a tick. *)
Definition timedLogOf (idleTime : Z) (w : World) : list Emission :=
  let w2 := afterTransitions idleTime w in
  (timedLog (this w2) (clock w2) idleTime (reads w2) (timedEvents (this w2))).1.

(** Timer handles come from [setInterval]: the handle the instance holds
    and the handles of the running timers were issued before. *)
Definition handlesIssued (w : World) : Prop :=
  (∀ id, pollIntervalId (this w) = Some id → (id < timerSeq w)%nat)
  ∧ (∀ id, is_Some (intervals w !! id) → (id < timerSeq w)%nat).

(** The status is one of the two that [setStatus] accepts. *)
Definition validStatus (o : NodeAFK) : Prop :=
  currentStatus o = Some STATUS_AWAY ∨ currentStatus o = Some STATUS_ONLINE.

(** A small world to run examples in: a blank instance, a clock that
    starts at 1000 and advances by one per read, no timers, an empty log. *)
Definition blank : NodeAFK := mkNodeAFK 0 0 None [] None None ∅.

Definition world0 : World :=
  mkWorld blank (fun k => 1000 + Z.of_nat k) 0%nat ∅ 0%nat [].

(** ** Runs of an instance *)

(** A call of a method from outside; [CallPoll] is the timer calling
    [pollStatus] with the idle time it samples. *)
Inductive Call : Type :=
| CallSetStatus (status : string)
| CallInit
| CallDestroy
| CallOn (eventName : string) (listener : Listener)
| CallOff (eventName : string) (listener : Listener)
| CallPoll (idleTime : Z).

Definition call (c : Call) : JS unit :=
  match c with
  | CallSetStatus status => setStatus status
  | CallInit => init
  | CallDestroy => destroy
  | CallOn eventName listener => on eventName listener
  | CallOff eventName listener => off eventName listener
  | CallPoll idleTime => pollStatus idleTime
  end.

(** The world after a sequence of calls; a call that throws leaves the
    world it threw in, and the caller goes on. *)
Fixpoint calls (cs : list Call) (w : World) : World :=
  match cs with
  | [] => w
  | c :: rest => calls rest (world_of (call c w))
  end.

(** The status and the instant of coming online agree. *)
Definition statusConsistent (o : NodeAFK) : Prop :=
  (currentStatus o = Some STATUS_AWAY ∧ userLastCameOnlineAt o = None)
  ∨ (currentStatus o = Some STATUS_ONLINE ∧ is_Some (userLastCameOnlineAt o)).




(** The instance without the last occurrence of a listener under a name:
    what [super.off] makes of it. *)
Definition withoutListener (eventName : string) (listener : Listener)
    (o : NodeAFK) : NodeAFK :=
  match _events o !! eventName with
  | None => o
  | Some xs =>
      match remove_last listener xs with
      | [] => set_events (delete eventName (_events o)) o
      | ys => set_events (<[eventName := ys]> (_events o)) o
      end
  end.

(** The entries of a registry with a given status and threshold. *)
Definition entriesFor (status : string) (d : Z) (entries : list TimedEvent.t)
    : list TimedEvent.t :=
  filter (fun timedEvent =>
            TimedEvent.status timedEvent = Some status
            ∧ TimedEvent.duration timedEvent = Some d) entries.

(** An entry that is due with the status 'away': its status is 'away'
    and its threshold is a number the idle time beyond
    [inactivityDuration] has reached. *)
Definition awayDue (o : NodeAFK) (idleTime : Z) (timedEvent : TimedEvent.t)
    : Prop :=
  TimedEvent.status timedEvent = Some STATUS_AWAY
  ∧ match TimedEvent.duration timedEvent with
    | Some d => d ≤ idleTime - inactivityDuration o
    | None => False
    end.

Global Instance awayDue_dec o idleTime timedEvent :
  Decision (awayDue o idleTime timedEvent).
Proof.
  unfold awayDue. destruct (TimedEvent.duration timedEvent); apply _.
Defined.


(** * Properties *)

(** ** The monad *)

Ltac js_unfold :=
  unfold mbind, JS_bind, mret, JS_ret, throw, get_this, modify_this, when.

Lemma bind_returned {A B} (m : JS A) (k : A -> JS B) w a w' :
  m w = Returned a w' → (m ≫= k) w = k a w'.
Proof. intros E. unfold mbind, JS_bind. by rewrite E. Qed.

Lemma bind_thrown {A B} (m : JS A) (k : A -> JS B) w e w' :
  m w = Thrown e w' → (m ≫= k) w = Thrown e w'.
Proof. intros E. unfold mbind, JS_bind. by rewrite E. Qed.

(** ** [setStatus] *)

Lemma setStatus_away w :
  setStatus STATUS_AWAY w
  = Returned tt (with_this (committed STATUS_AWAY None (this w)) w).
Proof. reflexivity. Qed.

Lemma setStatus_online w :
  setStatus STATUS_ONLINE w
  = Returned tt
      (mkWorld (committed STATUS_ONLINE (Some (clock w (reads w))) (this w))
               (clock w) (S (reads w)) (intervals w) (timerSeq w) (emitted w)).
Proof. reflexivity. Qed.

Lemma setStatus_invalid status w :
  status ∉ [STATUS_AWAY; STATUS_ONLINE] →
  setStatus status w = Thrown (status +:+ " is not a valid status") w.
Proof.
  intros H. unfold setStatus. by rewrite bool_decide_eq_false_2.
Qed.

(** C5: [setStatus] with a status other than 'away' and 'online' throws
    the error "<status> is not a valid status" and the world it leaves is
    the one it was called in, so the current status and the instant of
    coming online are what they were.  The constructor called with such
    an initial status throws the same error, and the object it was
    building never gets a status. *)
Theorem setStatus_invalid_throws (status : string) (w : World)
    (inactivity : Z) (poll : option Z) :
  status ≠ STATUS_ONLINE → status ≠ STATUS_AWAY →
  setStatus status w = Thrown (status +:+ " is not a valid status") w
  ∧ currentStatus (this (world_of (setStatus status w))) = currentStatus (this w)
  ∧ userLastCameOnlineAt (this (world_of (setStatus status w)))
    = userLastCameOnlineAt (this w)
  ∧ ∃ w', constructor inactivity poll (Some status) w
          = Thrown (status +:+ " is not a valid status") w'
          ∧ currentStatus (this w') = None.
Proof.
  intros Hon Haw.
  assert (Hin : status ∉ [STATUS_AWAY; STATUS_ONLINE]).
  { rewrite !not_elem_of_cons. split_and!; auto. apply not_elem_of_nil. }
  rewrite (setStatus_invalid _ w Hin). split_and!; try reflexivity.
  eexists. split.
  - unfold constructor. erewrite bind_returned by reflexivity.
    simpl. by apply setStatus_invalid.
  - reflexivity.
Qed.

Lemma setStatus_invalid_throws_witness :
  "busy" ≠ STATUS_ONLINE ∧ "busy" ≠ STATUS_AWAY
  ∧ setStatus "busy" world0 = Thrown "busy is not a valid status" world0.
Proof.
  split_and!; [discriminate | discriminate |].
  apply (setStatus_invalid_throws "busy" world0 5000 None); discriminate.
Defined.

(** C6: for a status among 'away' and 'online', [setStatus] returns, the
    current status then reads back as that status, and the instant of
    coming online is defined exactly when the status is 'online': it is
    the instant [Date.now()] gave, and it is cleared for 'away'. *)
Theorem setStatus_valid_commits (status : string) (w : World) :
  status ∈ [STATUS_AWAY; STATUS_ONLINE] →
  ∃ w', setStatus status w = Returned tt w'
        ∧ currentStatus (this w') = Some status
        ∧ (is_Some (userLastCameOnlineAt (this w')) ↔ status = STATUS_ONLINE)
        ∧ (status = STATUS_ONLINE →
           userLastCameOnlineAt (this w') = Some (clock w (reads w)))
        ∧ (status = STATUS_AWAY → userLastCameOnlineAt (this w') = None).
Proof.
  rewrite !elem_of_cons, elem_of_nil. intros [-> | [-> | []]].
  - eexists. split; [apply setStatus_away |]. simpl.
    split_and!; done.
  - eexists. split; [apply setStatus_online |]. simpl.
    split_and!; try done.
Qed.

Lemma setStatus_valid_commits_witness :
  STATUS_ONLINE ∈ [STATUS_AWAY; STATUS_ONLINE]
  ∧ ∃ w', setStatus STATUS_ONLINE world0 = Returned tt w'
          ∧ currentStatus (this w') = Some STATUS_ONLINE
          ∧ userLastCameOnlineAt (this w') = Some 1000.
Proof.
  assert (Hin : STATUS_ONLINE ∈ [STATUS_AWAY; STATUS_ONLINE])
    by (apply list_elem_of_further, list_elem_of_here).
  split; [exact Hin |].
  destruct (setStatus_valid_commits STATUS_ONLINE world0 Hin)
    as (w' & E & Hs & _ & Hat & _).
  exists w'. split_and!; [exact E | exact Hs | exact (Hat eq_refl)].
Defined.

(** ** [parseEventName] *)

Lemma is_digit_decimal c : is_digit c = true ↔ decimal c.
Proof.
  unfold decimal.
  destruct c as [[] [] [] [] [] [] [] []]; vm_compute; split;
    intros H; try done; lia.
Qed.

Lemma all_digits_Forall ds :
  all_digits ds = true ↔ Forall decimal (list_ascii_of_string ds).
Proof.
  induction ds as [| c ds IH]; simpl.
  - split; [constructor | done].
  - rewrite andb_true_iff, Forall_cons, IH, is_digit_decimal. done.
Qed.

Lemma string_app_nil (s : string) : "" +:+ s = s.
Proof. reflexivity. Qed.

Lemma string_app_cons (a : ascii) (p s : string) :
  String a p +:+ s = String a (p +:+ s).
Proof. reflexivity. Qed.

Lemma strip_prefix_Some p s rest :
  strip_prefix p s = Some rest ↔ s = p +:+ rest.
Proof.
  revert s. induction p as [| a p IH]; intros s; simpl.
  - rewrite string_app_nil. split; congruence.
  - rewrite string_app_cons. destruct s as [| b s]; [split; discriminate |].
    case_bool_decide as Hab.
    + subst b. rewrite IH. split; congruence.
    + split; [discriminate | intros [= ? ?]; done].
Qed.

Lemma strip_prefix_app p rest : strip_prefix p (p +:+ rest) = Some rest.
Proof. by apply strip_prefix_Some. Qed.

Lemma match_duration_timed rest g2 ds :
  match_duration rest = Some (g2, Some ds) ↔
  rest = ":" +:+ ds ∧ g2 = Some rest ∧ ds ≠ "" ∧ all_digits ds = true.
Proof.
  change (":" +:+ ds) with (String ":" ds).
  unfold match_duration. destruct rest as [| c rest].
  - split; [discriminate | intros [? _]; discriminate].
  - destruct (decide (c = ":"%char)) as [-> | Hc].
    + destruct (bool_decide_reflect (rest = "")) as [-> | Hne]; simpl.
      * split; [discriminate | intros ([= <-] & _ & ? & _); done].
      * destruct (all_digits rest) eqn:Hd; simpl.
        -- split.
           ++ intros [= <- <-]. done.
           ++ intros ([= <-] & -> & _ & _). done.
        -- split; [discriminate | intros ([= <-] & _ & _ & ?); congruence].
    + assert (match c with
              | ":"%char =>
                  if negb (bool_decide (rest = "")) && all_digits rest
                  then Some (Some (String c rest), Some rest) else None
              | _ => None
              end = None) as ->.
      { destruct c as [[] [] [] [] [] [] [] []]; try reflexivity. done. }
      split; [discriminate | intros ([= ? _] & _); done].
Qed.


(** The matcher agrees with the regular expressions. *)
Lemma matches_digits ds :
  matches (Plus (Class is_digit)) ds ↔ ds ≠ "" ∧ all_digits ds = true.
Proof.
  split.
  - remember (Plus (Class is_digit)) as r eqn:Hr. intros Hm.
    induction Hm as [| | | | | | | r s Hs _ | r s1 s2 H1 _ H2 IH2];
      try discriminate; injection Hr as ->.
    + inversion Hs as [| p c Hc | | | | | | |]; subst.
      simpl. by rewrite Hc.
    + inversion H1 as [| p c Hc | | | | | | |]; subst.
      destruct (IH2 eq_refl) as [_ Hd].
      rewrite string_app_cons, string_app_nil. simpl. by rewrite Hc, Hd.
  - intros [Hne Hd]. induction ds as [| c ds IH]; [done |].
    simpl in Hd. apply andb_true_iff in Hd as [Hc Hd].
    destruct ds as [| c' ds].
    + by apply matches_plus_one, matches_class.
    + change (String c (String c' ds)) with (String c "" +:+ String c' ds).
      apply matches_plus_more; [by apply matches_class |].
      by apply IH.
Qed.

Lemma matches_status st :
  matches (Alt (Lit "away") (Lit "online")) st ↔ st = "away" ∨ st = "online".
Proof.
  split.
  - intros Hm.
    inversion Hm as [| | | r1 r2 s H | r1 r2 s H | | | |]; subst;
      inversion H; subst; auto.
  - intros [-> | ->]; [apply matches_alt_l | apply matches_alt_r];
      apply matches_lit.
Qed.

Lemma matches_colon_digits s :
  matches (Seq (Lit ":") (Plus (Class is_digit))) s
  ↔ ∃ ds, s = ":" +:+ ds ∧ ds ≠ "" ∧ all_digits ds = true.
Proof.
  split.
  - intros Hm. inversion Hm as [| | r1 r2 s1 s2 H1 H2 | | | | | |]; subst.
    inversion H1; subst. apply matches_digits in H2. eauto.
  - intros (ds & -> & Hd). apply matches_seq; [apply matches_lit |].
    by apply matches_digits.
Qed.

Lemma matches_timedNameExpression name :
  matches timedNameExpression name ↔ isTimedName name.
Proof.
  unfold timedNameExpression, isTimedName, timedPattern. split.
  - intros Hm. inversion Hm as [| | r1 r2 s1 s2 H1 H2 | | | | | |]; subst.
    apply matches_status in H1.
    apply matches_colon_digits in H2 as (ds & -> & Hne & Hd).
    exists s1, ds. by rewrite <- all_digits_Forall.
  - intros (st & ds & (Hst & Hne & Hd) & ->).
    apply matches_seq; [by apply matches_status |].
    apply matches_colon_digits. exists ds. by rewrite all_digits_Forall.
Qed.


(** The number a string of digits denotes is not negative. *)
Lemma digit_value_range c : is_digit c = true → 0 ≤ digit_value c ≤ 9.
Proof.
  destruct c as [[] [] [] [] [] [] [] []]; try discriminate;
    intros _; vm_compute; split; discriminate.
Qed.

Lemma Number_from_nonneg acc ds :
  0 ≤ acc → all_digits ds = true → 0 ≤ Number_from acc ds.
Proof.
  revert acc. induction ds as [| c ds IH]; intros acc Hacc; simpl; [done |].
  intros [Hc Hds]%andb_true_iff. apply IH; [| done].
  pose proof (digit_value_range c Hc). lia.
Qed.

Lemma Number_nonneg status digits :
  timedPattern status digits → 0 ≤ Number digits.
Proof.
  intros (_ & _ & Hd). apply Number_from_nonneg; [done |].
  by apply all_digits_Forall.
Qed.

(** What [parseEventName] returns on a timed name. *)
Lemma parseEventName_timedPattern status digits :
  timedPattern status digits →
  parseEventName (status +:+ ":" +:+ digits)
  = EventNameInfo.mk true (Some status) (Some (Number digits)).
Proof.
  intros (Hst & Hne & Hd). apply all_digits_Forall in Hd.
  assert (Hm : match_duration (":" +:+ digits)
               = Some (Some (":" +:+ digits), Some digits)).
  { apply match_duration_timed. done. }
  assert (Htr : truthy (Some digits) = true).
  { simpl. by rewrite bool_decide_eq_false_2. }
  unfold parseEventName, eventNameExpression_match, match_alternative.
  destruct Hst as [-> | ->].
  - unfold STATUS_AWAY. rewrite strip_prefix_app, Hm.
    unfold part. simpl lookup. simpl mjoin. by rewrite Htr.
  - replace (strip_prefix STATUS_AWAY ("online" +:+ ":" +:+ digits))
      with (@None string) by reflexivity.
    unfold STATUS_ONLINE. rewrite strip_prefix_app, Hm.
    unfold part. simpl lookup. simpl mjoin. by rewrite Htr.
Qed.

(** A name that [parseEventName] takes for a timed one is in the language
    of the pattern. *)
Lemma parseEventName_isTimedEvent name :
  EventNameInfo.isTimedEvent (parseEventName name) = true → isTimedName name.
Proof.
  unfold parseEventName, eventNameExpression_match.
  assert (Halt : ∀ st parts, st = "away" ∨ st = "online" →
            match_alternative st name = Some parts →
            truthy (part parts 3) = true → isTimedName name).
  { intros st parts Hst. unfold match_alternative.
    destruct (strip_prefix st name) as [rest |] eqn:Hp; [| discriminate].
    apply strip_prefix_Some in Hp.
    destruct (match_duration rest) as [[g2 [ds |]] |] eqn:Hm; try discriminate.
    - intros [= <-] _. apply match_duration_timed in Hm as (-> & _ & Hne & Hd).
      exists st, ds. split; [| done].
      split_and!; [done | done | by apply all_digits_Forall].
    - intros [= <-]. discriminate. }
  destruct (match_alternative STATUS_AWAY name) as [parts |] eqn:Ha.
  - destruct (truthy (part parts 3)) eqn:Ht; [| discriminate].
    intros _. eapply (Halt "away"); eauto.
  - destruct (match_alternative STATUS_ONLINE name) as [parts |] eqn:Ho;
      [| discriminate].
    destruct (truthy (part parts 3)) eqn:Ht; [| discriminate].
    intros _. eapply (Halt "online"); eauto.
Qed.

Lemma parseEventName_timed_iff name :
  EventNameInfo.isTimedEvent (parseEventName name) = true ↔ isTimedName name.
Proof.
  split; [apply parseEventName_isTimedEvent |].
  intros (st & ds & Hp & ->). by rewrite parseEventName_timedPattern.
Qed.

(** ** [on] and [off] *)

Lemma on_returns name l w :
  on name l w
  = Returned tt
      (with_this
         (set_events
            (<[name := listeners_of (this w) name ++ [l]]> (_events (this w)))
            (if EventNameInfo.isTimedEvent (parseEventName name)
             then set_timedEvents
                    (timedEvents (this w) ++
                     [TimedEvent.mk (EventNameInfo.status (parseEventName name))
                                    (EventNameInfo.duration (parseEventName name))
                                    l]) (this w)
             else this w)) w).
Proof.
  unfold on. destruct (EventNameInfo.isTimedEvent (parseEventName name));
    reflexivity.
Qed.

Lemma off_timedEvents name l w :
  ∃ w', off name l w = Returned tt w'
        ∧ timedEvents (this w')
          = if EventNameInfo.isTimedEvent (parseEventName name)
            then filter (fun timedEvent =>
                     TimedEvent.status timedEvent
                     = EventNameInfo.status (parseEventName name)
                     ∧ TimedEvent.duration timedEvent
                       = EventNameInfo.duration (parseEventName name)
                     ∧ TimedEvent.listener timedEvent = l)
                   (timedEvents (this w))
            else timedEvents (this w).
Proof.
  unfold off, super_off. js_unfold.
  destruct (EventNameInfo.isTimedEvent (parseEventName name)); simpl;
    (destruct (_events (this w) !! name) as [xs |];
     [destruct (remove_last l xs) |]); eexists; split; reflexivity.
Qed.

(** What [off] leaves in the registry for a timed name: the entries that
    agree with the name and the listener on all three fields. *)
Lemma off_timed_registry status digits l w :
  timedPattern status digits →
  timedEvents (this (world_of (off (status +:+ ":" +:+ digits) l w)))
  = filter (fun timedEvent =>
              TimedEvent.status timedEvent = Some status
              ∧ TimedEvent.duration timedEvent = Some (Number digits)
              ∧ TimedEvent.listener timedEvent = l)
           (timedEvents (this w)).
Proof.
  intros Hp. destruct (off_timedEvents (status +:+ ":" +:+ digits) l w)
    as (w' & E & Hreg).
  rewrite E. simpl. rewrite Hreg. by rewrite parseEventName_timedPattern.
Qed.

(** C7: [on] adds an entry to the registry of timed events exactly when
    the name matches [^(away|online):([0-9]+)$], that is, when it is a
    status, a colon and one or more digits; the entry then holds the
    status, the number the digits denote (which is not negative), and the
    listener.  Any other name leaves the registry as it is.  In both cases
    the listener is appended to the listeners of the literal name.
    'status-change' and 'online' do not match; 'away:0' does, with the
    threshold 0. *)
Theorem on_registers_timed_names_only (name : string) (l : Listener) (w : World) :
  ∃ w', on name l w = Returned tt w'
    ∧ (matches timedNameExpression name ↔
       ∃ entry, timedEvents (this w') = timedEvents (this w) ++ [entry])
    ∧ (∀ status digits,
         timedPattern status digits → name = status +:+ ":" +:+ digits →
         timedEvents (this w')
         = timedEvents (this w)
           ++ [TimedEvent.mk (Some status) (Some (Number digits)) l]
         ∧ 0 ≤ Number digits)
    ∧ (¬ matches timedNameExpression name →
       timedEvents (this w') = timedEvents (this w))
    ∧ _events (this w')
      = <[name := listeners_of (this w) name ++ [l]]> (_events (this w))
    ∧ ¬ matches timedNameExpression "status-change"
    ∧ ¬ matches timedNameExpression "online"
    ∧ matches timedNameExpression "away:0"
    ∧ parseEventName "away:0" = EventNameInfo.mk true (Some "away") (Some 0).
Proof.
  eexists. split; [apply on_returns |].
  assert (Hno : ∀ n, EventNameInfo.isTimedEvent (parseEventName n) = false →
                     ¬ matches timedNameExpression n).
  { intros n Hn Ht.
    apply matches_timedNameExpression, parseEventName_timed_iff in Ht.
    congruence. }
  split_and!.
  - destruct (EventNameInfo.isTimedEvent (parseEventName name)) eqn:Ht; simpl.
    + split; [eauto |]. intros _.
      by apply matches_timedNameExpression, parseEventName_timed_iff.
    + split; [by intros ?%Hno |].
      intros [entry He]. apply (f_equal length) in He.
      rewrite length_app in He. simpl in He. lia.
  - intros status digits Hp ->. split; [| by eapply Number_nonneg].
    by rewrite parseEventName_timedPattern.
  - intros Hn.
    destruct (EventNameInfo.isTimedEvent (parseEventName name)) eqn:Ht;
      [| done].
    by apply parseEventName_timed_iff, matches_timedNameExpression in Ht.
  - by destruct (EventNameInfo.isTimedEvent (parseEventName name)).
  - by apply Hno.
  - by apply Hno.
  - by apply matches_timedNameExpression, parseEventName_timed_iff.
  - reflexivity.
Qed.

(** C1: at a registry with the entries (away, 3000, listener 1) and
    (online, 2000, listener 2), [off("away:3000", 1)] leaves exactly the
    entry (away, 3000, 1): the entry of the listener being unsubscribed
    stays, and the entry of another status and duration is gone.  The
    filter keeps what matches where it should drop it.  The next tick with
    9000 of idle time still emits 'away:3000'.  With a third entry
    (away, 3000, listener 3) the result is the same single entry. *)
Theorem off_keeps_the_matching_entry :
  let subscribed :=
    world_of ((constructor 5000 None None;;
               on "away:3000" 1%nat;;
               on "online:2000" 2%nat) world0) in
  let unsubscribed := world_of (off "away:3000" 1%nat subscribed) in
  let crowded := world_of (on "away:3000" 3%nat subscribed) in
  timedEvents (this subscribed)
  = [TimedEvent.mk (Some "away") (Some 3000) 1%nat;
     TimedEvent.mk (Some "online") (Some 2000) 2%nat]
  ∧ timedEvents (this unsubscribed)
    = [TimedEvent.mk (Some "away") (Some 3000) 1%nat]
  ∧ names (emissions (pollStatus 9000) unsubscribed)
    = ["status-change"; "status:away"; "away:3000"]
  ∧ timedEvents (this (world_of (off "away:3000" 1%nat crowded)))
    = [TimedEvent.mk (Some "away") (Some 3000) 1%nat].
Proof. split_and!; reflexivity. Qed.

(** ** [destroy] and [init] *)

Lemma destroy_returns w :
  destroy w
  = Returned tt
      (mkWorld (set_events ∅ (set_timedEvents [] (this w))) (clock w) (reads w)
               (match pollIntervalId (this w) with
                | Some id => delete id (intervals w)
                | None => intervals w
                end)
               (timerSeq w) (emitted w)).
Proof.
  unfold destroy, removeAllListeners, clearInterval. js_unfold.
  destruct w as [o ? ? ? ? ?]. simpl. by destruct (pollIntervalId o).
Qed.

Lemma init_returns w :
  init w
  = Returned tt
      (mkWorld (set_pollIntervalId (Some (timerSeq w))
                  (set_events ∅ (set_timedEvents [] (this w))))
               (clock w) (reads w)
               (<[timerSeq w := pollInterval (this w)]>
                  (match pollIntervalId (this w) with
                   | Some id => delete id (intervals w)
                   | None => intervals w
                   end))
               (S (timerSeq w)) (emitted w)).
Proof.
  unfold init. erewrite bind_returned by apply destroy_returns. reflexivity.
Qed.

(** Issued handles stay issued through [destroy] and [init]. *)
Lemma handlesIssued_destroy w :
  handlesIssued w → handlesIssued (world_of (destroy w)).
Proof.
  intros [Hheld Hrun]. rewrite destroy_returns. split; simpl; [done |].
  intros id [p Hp]. apply Hrun.
  destruct (pollIntervalId (this w)) as [id' |]; [| by eexists].
  apply lookup_delete_Some in Hp as [_ Hp]. by eexists.
Qed.

Lemma handlesIssued_init w :
  handlesIssued w → handlesIssued (world_of (init w)).
Proof.
  intros [Hheld Hrun]. rewrite init_returns. split; simpl.
  - intros id [= <-]. lia.
  - intros id [p Hp].
    destruct (decide (id = timerSeq w)) as [-> | Hne]; [lia |].
    rewrite lookup_insert_ne in Hp by done.
    assert (id < timerSeq w)%nat; [| lia]. apply Hrun.
    destruct (pollIntervalId (this w)) as [id' |]; [| by eexists].
    apply lookup_delete_Some in Hp as [_ Hp]. by eexists.
Qed.

(** C8: [destroy] stops the timer of the instance if it holds one, empties
    the registry of timed events and removes every listener.  [init] does
    the same teardown first and then starts a new timer of period
    [pollInterval] under a handle that was not in use: called on any
    world, or after [destroy], it ends in the same world, where the
    registry and the listener table are empty, the new timer is the one
    the instance holds, and the timer held before is not running. *)
Theorem destroy_then_init_is_clean (w : World) :
  handlesIssued w →
  ∃ w1 w2,
    destroy w = Returned tt w1
    ∧ (∀ id, pollIntervalId (this w) = Some id → intervals w1 !! id = None)
    ∧ timedEvents (this w1) = []
    ∧ _events (this w1) = ∅
    ∧ init w1 = Returned tt w2
    ∧ init w = Returned tt w2
    ∧ timedEvents (this w2) = []
    ∧ _events (this w2) = ∅
    ∧ (∀ name, listeners_of (this w2) name = [])
    ∧ pollIntervalId (this w2) = Some (timerSeq w)
    ∧ intervals w !! timerSeq w = None
    ∧ intervals w2 !! timerSeq w = Some (pollInterval (this w))
    ∧ (∀ id, pollIntervalId (this w) = Some id → intervals w2 !! id = None).
Proof.
  intros [Hheld Hrun].
  assert (Hfresh : intervals w !! timerSeq w = None).
  { destruct (intervals w !! timerSeq w) eqn:E; [| done].
    specialize (Hrun (timerSeq w) (mk_is_Some _ _ E)). lia. }
  exists (world_of (destroy w)), (world_of (init w)).
  rewrite !init_returns, destroy_returns. simpl.
  split_and!; try done.
  - intros id ->. apply lookup_delete_eq.
  - f_equal. f_equal.
    destruct (pollIntervalId (this w)) as [id |]; [| done].
    by rewrite delete_delete_eq.
  - apply lookup_insert_eq.
  - intros id Hid. rewrite Hid. specialize (Hheld id Hid).
    rewrite lookup_insert_ne by lia. apply lookup_delete_eq.
Qed.

Lemma destroy_then_init_is_clean_witness :
  let w := world_of ((constructor 5000 None None;; init;;
                      on "away:3000" 1%nat) world0) in
  handlesIssued w
  ∧ timedEvents (this w) ≠ []
  ∧ ∃ w1 w2, destroy w = Returned tt w1 ∧ init w1 = Returned tt w2
             ∧ timedEvents (this w2) = [] ∧ _events (this w2) = ∅.
Proof.
  intros w.
  assert (H : handlesIssued w).
  { split.
    - intros id [= <-]. simpl. lia.
    - intros id [p Hp]. simpl in *.
      destruct (decide (id = 0%nat)) as [-> | Hne]; [lia |].
      rewrite lookup_insert_ne in Hp by done. by rewrite lookup_empty in Hp. }
  split; [exact H |]. split; [discriminate |].
  destruct (destroy_then_init_is_clean w H)
    as (w1 & w2 & E1 & _ & _ & _ & E2 & _ & Ht & He & _).
  exists w1, w2. done.
Defined.

(** ** One poll tick *)

Lemma onlineToAway_fires idleTime w :
  awayGuard (this w) idleTime →
  onlineToAway idleTime w = Returned tt (wentAway w).
Proof.
  intros [Hs Hi]. unfold onlineToAway, emit. js_unfold.
  rewrite !bool_decide_eq_true_2 by done. simpl.
  unfold wentAway, awayEmissions, with_this. simpl.
  by rewrite <- app_assoc.
Qed.

Lemma onlineToAway_skips idleTime w :
  ¬ awayGuard (this w) idleTime →
  onlineToAway idleTime w = Returned tt w.
Proof.
  intros Hg. unfold onlineToAway. js_unfold.
  destruct (bool_decide_reflect (currentStatus (this w) = Some STATUS_ONLINE));
    [| done].
  destruct (bool_decide_reflect (inactivityDuration (this w) ≤ idleTime));
    [| done].
  destruct Hg. by split.
Qed.

Lemma awayToOnline_fires idleTime w :
  onlineGuard (this w) idleTime →
  awayToOnline idleTime w = Returned tt (cameOnline w).
Proof.
  intros [Hs Hi]. unfold awayToOnline, emit. js_unfold.
  rewrite !bool_decide_eq_true_2 by done. simpl.
  unfold cameOnline, onlineEmissions, with_this. simpl.
  by rewrite <- app_assoc.
Qed.

Lemma awayToOnline_skips idleTime w :
  ¬ onlineGuard (this w) idleTime →
  awayToOnline idleTime w = Returned tt w.
Proof.
  intros Hg. unfold awayToOnline. js_unfold.
  destruct (bool_decide_reflect (currentStatus (this w) = Some STATUS_AWAY));
    [| done].
  destruct (bool_decide_reflect (idleTime < inactivityDuration (this w)));
    [| done].
  destruct Hg. by split.
Qed.

(** The guards exclude each other, before and after the first commit. *)
Lemma guards_exclusive o idleTime :
  awayGuard o idleTime → ¬ onlineGuard o idleTime.
Proof. intros [Hs _] [Hs' _]. rewrite Hs in Hs'. discriminate. Qed.

Lemma wentAway_no_onlineGuard w idleTime :
  awayGuard (this w) idleTime → ¬ onlineGuard (this (wentAway w)) idleTime.
Proof. intros [_ Hi] [_ Hi']. simpl in Hi'. lia. Qed.

(** The status part of a tick: one of three worlds. *)
Lemma transitions_returns idleTime w :
  transitions idleTime w = Returned tt (afterTransitions idleTime w).
Proof.
  unfold transitions, afterTransitions.
  destruct (decide (awayGuard (this w) idleTime)) as [Ha | Ha].
  - erewrite bind_returned by by apply onlineToAway_fires.
    apply awayToOnline_skips. by apply wentAway_no_onlineGuard.
  - erewrite bind_returned by by apply onlineToAway_skips.
    destruct (decide (onlineGuard (this w) idleTime)) as [Ho | Ho].
    + by apply awayToOnline_fires.
    + by apply awayToOnline_skips.
Qed.

Lemma timedEventCallback_returns idleTime timedEvent w :
  timedEventCallback idleTime timedEvent w
  = Returned tt
      (mkWorld (this w) (clock w)
               (if entryReadsClock (this w) timedEvent
                then S (reads w) else reads w)
               (intervals w) (timerSeq w)
               (emitted w ++
                if entryFires (this w) idleTime (clock w (reads w)) timedEvent
                then [entryEmission (this w) timedEvent] else [])).
Proof.
  unfold timedEventCallback, entryFires, entryReadsClock, Date_now, emit.
  js_unfold. destruct w as [o clk r iv ts log]. simpl.
  destruct (bool_decide (currentStatus o = Some STATUS_ONLINE)
            && bool_decide (currentStatus o = TimedEvent.status timedEvent));
    simpl.
  - destruct (_ || _); simpl; [done |]. by rewrite app_nil_r.
  - rewrite !orb_false_r. destruct (_ && _); simpl; [done |].
    by rewrite app_nil_r.
Qed.

Lemma forEach_timed idleTime entries w :
  forEach entries (timedEventCallback idleTime) w
  = Returned tt
      (mkWorld (this w) (clock w)
               (timedLog (this w) (clock w) idleTime (reads w) entries).2
               (intervals w) (timerSeq w)
               (emitted w ++
                (timedLog (this w) (clock w) idleTime (reads w) entries).1)).
Proof.
  revert w. induction entries as [| timedEvent rest IH]; intros w; simpl.
  - destruct w. simpl. by rewrite app_nil_r.
  - erewrite bind_returned by apply timedEventCallback_returns.
    rewrite IH. simpl.
    destruct (timedLog (this w) (clock w) idleTime
                (if entryReadsClock (this w) timedEvent
                 then S (reads w) else reads w) rest) as [log r'].
    simpl. by rewrite <- app_assoc.
Qed.

Lemma evalTimedEvents_returns idleTime w :
  evalTimedEvents idleTime w
  = Returned tt
      (mkWorld (this w) (clock w)
               (timedLog (this w) (clock w) idleTime (reads w)
                         (timedEvents (this w))).2
               (intervals w) (timerSeq w)
               (emitted w ++
                (timedLog (this w) (clock w) idleTime (reads w)
                          (timedEvents (this w))).1)).
Proof. unfold evalTimedEvents. js_unfold. apply forEach_timed. Qed.

Lemma pollStatus_transitions idleTime w w2 :
  transitions idleTime w = Returned tt w2 →
  pollStatus idleTime w = evalTimedEvents idleTime w2.
Proof.
  unfold transitions, pollStatus. unfold mbind, JS_bind.
  destruct (onlineToAway idleTime w) as [[] w1 |]; [| discriminate].
  destruct (awayToOnline idleTime w1) as [[] w2' |]; [| discriminate].
  by intros [= ->].
Qed.

Lemma afterTransitions_emitted idleTime w :
  emitted (afterTransitions idleTime w) = emitted w ++ transitionLog idleTime w.
Proof.
  unfold afterTransitions, transitionLog.
  repeat case_decide; simpl; by rewrite ?app_nil_r.
Qed.

(** The status part of a tick changes the status and the instant of
    coming online, and no other field of the instance. *)
Lemma afterTransitions_frame idleTime w :
  let o' := this (afterTransitions idleTime w) in
  inactivityDuration o' = inactivityDuration (this w)
  ∧ pollInterval o' = pollInterval (this w)
  ∧ pollIntervalId o' = pollIntervalId (this w)
  ∧ timedEvents o' = timedEvents (this w)
  ∧ _events o' = _events (this w)
  ∧ clock (afterTransitions idleTime w) = clock w
  ∧ (reads w ≤ reads (afterTransitions idleTime w))%nat.
Proof.
  unfold afterTransitions. repeat case_decide; simpl; split_and!; auto.
Qed.

Lemma pollStatus_returns idleTime w :
  pollStatus idleTime w
  = Returned tt
      (let w2 := afterTransitions idleTime w in
       mkWorld (this w2) (clock w2)
               (timedLog (this w2) (clock w2) idleTime (reads w2)
                         (timedEvents (this w2))).2
               (intervals w2) (timerSeq w2)
               (emitted w ++ transitionLog idleTime w ++ timedLogOf idleTime w)).
Proof.
  rewrite (pollStatus_transitions idleTime w _ (transitions_returns idleTime w)).
  rewrite evalTimedEvents_returns, afterTransitions_emitted.
  unfold timedLogOf. simpl. by rewrite <- app_assoc.
Qed.

Lemma emissions_append {A} (m : JS A) w a w' log :
  m w = Returned a w' → emitted w' = emitted w ++ log → emissions m w = log.
Proof.
  intros E H. unfold emissions. rewrite E. simpl. rewrite H.
  by rewrite drop_app_length.
Qed.

Lemma emitted_via_emissions {A} (m : JS A) w a w' log :
  m w = Returned a w' → emitted w' = emitted w ++ log →
  emitted w' = emitted w ++ emissions m w.
Proof. intros E Hlog. by rewrite (emissions_append m w a w' log). Qed.

Lemma pollStatus_emissions idleTime w :
  emissions (pollStatus idleTime) w
  = transitionLog idleTime w ++ timedLogOf idleTime w.
Proof.
  eapply emissions_append; [apply pollStatus_returns |]. reflexivity.
Qed.

Lemma pollStatus_this idleTime w :
  this (world_of (pollStatus idleTime w)) = this (afterTransitions idleTime w).
Proof. by rewrite pollStatus_returns. Qed.

(** ** The loop over the registry *)

(** An entry fires only if the status is 'away' or 'online' and is the
    status of the entry. *)
Lemma entryFires_status o idleTime now timedEvent :
  entryFires o idleTime now timedEvent = true →
  validStatus o ∧ TimedEvent.status timedEvent = currentStatus o.
Proof.
  unfold entryFires, entryReadsClock, validStatus.
  rewrite orb_true_iff, !andb_true_iff, !bool_decide_eq_true.
  intros [[[Hs He] _] | [[Hs He] _]]; auto.
Qed.

(** Every emission of the loop comes from an entry that fires at some
    reading of the clock. *)
Lemma timedLog_elem o clk idleTime r entries e :
  e ∈ (timedLog o clk idleTime r entries).1 →
  ∃ timedEvent k,
    timedEvent ∈ entries
    ∧ entryFires o idleTime (clk k) timedEvent = true
    ∧ e = entryEmission o timedEvent.
Proof.
  revert r. induction entries as [| timedEvent rest IH]; intros r; simpl.
  - by intros ?%elem_of_nil.
  - destruct (timedLog o clk idleTime
                (if entryReadsClock o timedEvent then S r else r) rest)
      as [log r'] eqn:E.
    simpl. rewrite elem_of_app. intros [He | He].
    + destruct (entryFires o idleTime (clk r) timedEvent) eqn:Hf;
        [| by apply elem_of_nil in He].
      apply list_elem_of_singleton in He as ->.
      exists timedEvent, r. split_and!; [apply list_elem_of_here | done | done].
    + specialize (IH (if entryReadsClock o timedEvent then S r else r)).
      rewrite E in IH. destruct (IH He) as (te & k & Hin & Hf & ->).
      exists te, k. split_and!; [by apply list_elem_of_further | done | done].
Qed.

(** The name of a timed emission starts with the status and a colon, so
    it is none of the three names of the status part. *)
Lemma entryEmission_name o idleTime now timedEvent :
  entryFires o idleTime now timedEvent = true →
  ∃ status, (status = STATUS_AWAY ∨ status = STATUS_ONLINE)
    ∧ currentStatus o = Some status
    ∧ TimedEvent.status timedEvent = Some status
    ∧ em_name (entryEmission o timedEvent)
      = status +:+ ":" +:+ show_number (TimedEvent.duration timedEvent).
Proof.
  intros [[Hs | Hs] He]%entryFires_status; simpl; rewrite He, Hs; simpl.
  - exists STATUS_AWAY. auto.
  - exists STATUS_ONLINE. auto.
Qed.

Lemma entryEmission_not_transition o idleTime now timedEvent :
  entryFires o idleTime now timedEvent = true →
  em_name (entryEmission o timedEvent) ∉
    ["status-change"; "status:away"; "status:online"].
Proof.
  intros (status & Hst & _ & _ & ->)%entryEmission_name.
  rewrite !not_elem_of_cons.
  destruct Hst as [-> | ->]; split_and!; try discriminate; apply not_elem_of_nil.
Qed.

Lemma timedLogOf_elem idleTime w e :
  e ∈ timedLogOf idleTime w →
  em_this e = this (afterTransitions idleTime w)
  ∧ em_payload e = None
  ∧ em_name e ∉ ["status-change"; "status:away"; "status:online"].
Proof.
  unfold timedLogOf. intros (te & k & _ & Hf & ->)%timedLog_elem.
  split_and!; [done | done |]. by eapply entryEmission_not_transition.
Qed.

(** ** Transitions *)

Lemma filter_none {A} (P : A → Prop) `{!∀ x, Decision (P x)} (l : list A) :
  (∀ x, x ∈ l → ¬ P x) → filter P l = [].
Proof.
  intros Hnone. destruct (filter P l) as [| x rest] eqn:E; [done |].
  assert (Hx : x ∈ filter P l) by (rewrite E; apply list_elem_of_here).
  apply list_elem_of_filter in Hx as [HP Hin]. by destruct (Hnone x Hin).
Qed.

(** C2: from the status 'online', a poll tick goes to 'away' exactly when
    the idle time has reached [inactivityDuration].  On that transition
    the tick first emits 'status-change' with the payload
    [{previousStatus: 'online', currentStatus: 'away'}], then
    'status:away', and the listeners of both see the instance as it was,
    with the status 'online'; the status is committed afterwards, with the
    instant of coming online cleared, and what the tick emits later sees
    the committed instance.  Below the threshold the instance stays as it
    was and neither of the two events is emitted. *)
Theorem online_to_away_emits_then_commits (w : World) (idleTime : Z) :
  currentStatus (this w) = Some STATUS_ONLINE →
  ∃ w' timed,
    pollStatus idleTime w = Returned tt w'
    ∧ (currentStatus (this w') = Some STATUS_AWAY
       ↔ inactivityDuration (this w) ≤ idleTime)
    ∧ (inactivityDuration (this w) ≤ idleTime →
       emissions (pollStatus idleTime) w
       = mkEmission "status-change"
                    (Some (Payload.mk "online" "away"))
                    (listeners_of (this w) "status-change") (this w)
         :: mkEmission "status:away" None
                       (listeners_of (this w) "status:away") (this w)
         :: timed
       ∧ currentStatus (this w) = Some "online"
       ∧ this w' = committed "away" None (this w)
       ∧ Forall (fun e => em_this e = this w') timed)
    ∧ (idleTime < inactivityDuration (this w) →
       emissions (pollStatus idleTime) w = timed
       ∧ this w' = this w
       ∧ Forall (fun e => em_name e ≠ "status-change"
                          ∧ em_name e ≠ "status:away") timed).
Proof.
  intros Hs. exists (world_of (pollStatus idleTime w)), (timedLogOf idleTime w).
  assert (Hno : ¬ onlineGuard (this w) idleTime).
  { intros [Hs' _]. rewrite Hs in Hs'. discriminate. }
  assert (Htimed : Forall (fun e => em_this e = this (afterTransitions idleTime w)
                             ∧ em_name e ≠ "status-change"
                             ∧ em_name e ≠ "status:away")
                     (timedLogOf idleTime w)).
  { apply Forall_forall. intros e (Ht & _ & Hn)%timedLogOf_elem.
    rewrite !not_elem_of_cons in Hn. tauto. }
  rewrite pollStatus_emissions, pollStatus_this.
  split; [by rewrite pollStatus_returns |].
  unfold afterTransitions, transitionLog in *.
  destruct (decide (awayGuard (this w) idleTime)) as [[_ Hi] | Hg].
  - split_and!.
    + simpl. split; [done | reflexivity].
    + intros _. split_and!; [done | done | done |].
      eapply Forall_impl; [exact Htimed |]. by intros e [? _].
    + lia.
  - assert (Hlt : idleTime < inactivityDuration (this w)).
    { destruct (decide (inactivityDuration (this w) ≤ idleTime)); [| lia].
      destruct Hg. by split. }
    rewrite !decide_False by done. split_and!.
    + rewrite Hs. split; [discriminate | lia].
    + lia.
    + intros _. split_and!; [done | done |].
      eapply Forall_impl; [exact Htimed |]. by intros e (_ & ? & ?).
Qed.

Lemma online_to_away_emits_then_commits_witness :
  let w := world_of ((constructor 5000 None None;;
                      on "status-change" 1%nat) world0) in
  currentStatus (this w) = Some STATUS_ONLINE
  ∧ ∃ w' timed,
      pollStatus 5000 w = Returned tt w'
      ∧ currentStatus (this w') = Some STATUS_AWAY
      ∧ emissions (pollStatus 5000) w
        = mkEmission "status-change" (Some (Payload.mk "online" "away"))
                     [1%nat] (this w)
          :: mkEmission "status:away" None [] (this w) :: timed.
Proof.
  intros w. assert (Hs : currentStatus (this w) = Some STATUS_ONLINE)
    by reflexivity.
  split; [exact Hs |].
  destruct (online_to_away_emits_then_commits w 5000 Hs)
    as (w' & timed & E & Hiff & Haway & _).
  assert (Hle : inactivityDuration (this w) ≤ 5000) by (simpl; lia).
  exists w', timed. split_and!; [exact E | by apply Hiff |].
  by destruct (Haway Hle) as (-> & _).
Defined.

(** C9: a poll tick always returns, and in it the guard of the transition
    to 'away', looked at first, and the guard of the transition to
    'online', looked at after the first block has run, never both hold.
    So at most one of the two blocks changes the instance, the loop over
    the registry changes nothing of it, and the tick emits at most one
    'status-change'. *)
Theorem at_most_one_transition_per_tick (w : World) (idleTime : Z) :
  ∃ w1 w2 w3,
    onlineToAway idleTime w = Returned tt w1
    ∧ awayToOnline idleTime w1 = Returned tt w2
    ∧ evalTimedEvents idleTime w2 = Returned tt w3
    ∧ pollStatus idleTime w = Returned tt w3
    ∧ ¬ (awayGuard (this w) idleTime ∧ onlineGuard (this w1) idleTime)
    ∧ (this w1 = this w ∨ this w2 = this w1)
    ∧ this w3 = this w2
    ∧ (length (filter (fun e => em_name e = "status-change")
                      (emissions (pollStatus idleTime) w)) ≤ 1)%nat.
Proof.
  assert (Hcount : (length (filter (fun e => em_name e = "status-change")
                      (emissions (pollStatus idleTime) w)) ≤ 1)%nat).
  { rewrite pollStatus_emissions, filter_app, length_app.
    assert (filter (fun e => em_name e = "status-change")
                   (timedLogOf idleTime w) = []) as ->.
    { apply filter_none.
      intros e (_ & _ & Hn)%timedLogOf_elem.
      rewrite !not_elem_of_cons in Hn. tauto. }
    unfold transitionLog. repeat case_decide; simpl; lia. }
  destruct (decide (awayGuard (this w) idleTime)) as [Ha | Ha].
  - pose proof (wentAway_no_onlineGuard w idleTime Ha) as Hno.
    exists (wentAway w), (wentAway w),
      (world_of (evalTimedEvents idleTime (wentAway w))).
    split_and!; auto.
    + by apply onlineToAway_fires.
    + by apply awayToOnline_skips.
    + by rewrite evalTimedEvents_returns.
    + rewrite (pollStatus_transitions idleTime w (wentAway w)).
      * by rewrite evalTimedEvents_returns.
      * rewrite transitions_returns. unfold afterTransitions.
        by rewrite decide_True.
    + by intros [_ ?].
    + by rewrite evalTimedEvents_returns.
  - destruct (decide (onlineGuard (this w) idleTime)) as [Ho | Ho].
    + exists w, (cameOnline w),
        (world_of (evalTimedEvents idleTime (cameOnline w))).
      split_and!; auto.
      * by apply onlineToAway_skips.
      * by apply awayToOnline_fires.
      * by rewrite evalTimedEvents_returns.
      * rewrite (pollStatus_transitions idleTime w (cameOnline w)).
        -- by rewrite evalTimedEvents_returns.
        -- rewrite transitions_returns. unfold afterTransitions.
           by rewrite decide_False, decide_True.
      * by intros [? _].
      * by rewrite evalTimedEvents_returns.
    + exists w, w, (world_of (evalTimedEvents idleTime w)).
      split_and!; auto.
      * by apply onlineToAway_skips.
      * by apply awayToOnline_skips.
      * by rewrite evalTimedEvents_returns.
      * rewrite (pollStatus_transitions idleTime w w).
        -- by rewrite evalTimedEvents_returns.
        -- rewrite transitions_returns. unfold afterTransitions.
           by rewrite !decide_False.
      * by intros [? _].
      * by rewrite evalTimedEvents_returns.
Qed.

(** ** Timed events *)

Lemma forEach_app {A} (xs ys : list A) (f : A -> JS unit) w w1 :
  forEach xs f w = Returned tt w1 →
  forEach (xs ++ ys) f w = forEach ys f w1.
Proof.
  revert w. induction xs as [| x xs IH]; intros w; simpl.
  - by intros [= ->].
  - unfold mbind, JS_bind. destruct (f x w) as [[] w' |]; [| discriminate].
    apply IH.
Qed.

(** The loop only reads the clock forwards. *)
Lemma timedLog_reads o clk idleTime r entries :
  (r ≤ (timedLog o clk idleTime r entries).2)%nat.
Proof.
  revert r. induction entries as [| timedEvent rest IH]; intros r; simpl.
  - done.
  - specialize (IH (if entryReadsClock o timedEvent then S r else r)).
    destruct (timedLog o clk idleTime
                (if entryReadsClock o timedEvent then S r else r) rest)
      as [log r'].
    simpl in *. destruct (entryReadsClock o timedEvent); lia.
Qed.

(** An entry that fires at every reading from [r] on is in the log of a
    loop started after [r] reads. *)
Lemma timedLog_fires_from o clk idleTime r entries timedEvent :
  timedEvent ∈ entries →
  (∀ k, (r ≤ k)%nat → entryFires o idleTime (clk k) timedEvent = true) →
  entryEmission o timedEvent ∈ (timedLog o clk idleTime r entries).1.
Proof.
  revert r. induction entries as [| x rest IH]; intros r Hin Hf.
  - by apply elem_of_nil in Hin.
  - simpl.
    destruct (timedLog o clk idleTime
                (if entryReadsClock o x then S r else r) rest)
      as [log r'] eqn:E.
    simpl. apply elem_of_app.
    apply elem_of_cons in Hin as [<- | Hin].
    + left. rewrite Hf by lia. apply list_elem_of_here.
    + right.
      specialize (IH (if entryReadsClock o x then S r else r) Hin).
      rewrite E in IH. apply IH.
      intros k Hk. apply Hf. destruct (entryReadsClock o x); lia.
Qed.

(** With the status 'away' an entry fires by the idle time alone. *)
Lemma entryFires_away o idleTime now timedEvent :
  currentStatus o = Some STATUS_AWAY →
  entryFires o idleTime now timedEvent = true ↔
  TimedEvent.status timedEvent = Some STATUS_AWAY
  ∧ ∃ d, TimedEvent.duration timedEvent = Some d
         ∧ d ≤ idleTime - inactivityDuration o.
Proof.
  intros Hs. unfold entryFires, entryReadsClock. rewrite Hs.
  rewrite (bool_decide_eq_false_2 (Some STATUS_AWAY = Some STATUS_ONLINE))
    by discriminate.
  rewrite (bool_decide_eq_true_2 (Some STATUS_AWAY = Some STATUS_AWAY))
    by done.
  simpl. rewrite orb_false_r, andb_true_iff, bool_decide_eq_true.
  destruct (TimedEvent.duration timedEvent) as [d |]; simpl.
  - rewrite bool_decide_eq_true. split.
    + intros [? ?]. eauto.
    + intros [? (d' & [= <-] & ?)]. done.
  - split; [by intros [_ ?] | by intros [_ (d' & ? & _)]].
Qed.

(** With the status 'online' an entry fires by the clock alone. *)
Lemma entryFires_online o idleTime now timedEvent :
  currentStatus o = Some STATUS_ONLINE →
  entryFires o idleTime now timedEvent = true ↔
  TimedEvent.status timedEvent = Some STATUS_ONLINE
  ∧ ∃ d since, TimedEvent.duration timedEvent = Some d
               ∧ userLastCameOnlineAt o = Some since
               ∧ d ≤ now - since.
Proof.
  intros Hs. unfold entryFires, entryReadsClock. rewrite Hs.
  rewrite (bool_decide_eq_false_2 (Some STATUS_ONLINE = Some STATUS_AWAY))
    by discriminate.
  rewrite (bool_decide_eq_true_2 (Some STATUS_ONLINE = Some STATUS_ONLINE))
    by done.
  simpl. rewrite andb_true_iff, bool_decide_eq_true.
  destruct (TimedEvent.duration timedEvent) as [d |],
           (userLastCameOnlineAt o) as [since |]; simpl;
    rewrite ?bool_decide_eq_true.
  - split.
    + intros [? ?]. split; [done |]. by exists d, since.
    + intros [? (d' & since' & [= <-] & [= <-] & ?)]. done.
  - split; [by intros [_ ?] | by intros [_ (? & ? & _ & ? & _)]].
  - split; [by intros [_ ?] | by intros [_ (? & ? & ? & _)]].
  - split; [by intros [_ ?] | by intros [_ (? & ? & ? & _)]].
Qed.

(** The name an entry emits under. *)
Lemma entryEmission_timedName o status d l :
  em_name (entryEmission o (TimedEvent.mk (Some status) (Some d) l))
  = timedName status d.
Proof. reflexivity. Qed.

Lemma timedName_inj status d d' :
  timedName status d = timedName status d' → d = d'.
Proof.
  unfold timedName. intros H.
  apply (inj (String.append status)) in H.
  apply (inj (String.append ":")) in H.
  by apply (inj pretty) in H.
Qed.

(** No event of the status part has the name of a timed event. *)
Lemma transitionLog_names idleTime w e :
  e ∈ transitionLog idleTime w →
  em_name e ∈ ["status-change"; "status:away"; "status:online"].
Proof.
  unfold transitionLog, awayEmissions, onlineEmissions.
  repeat case_decide; rewrite ?elem_of_cons, ?elem_of_nil;
    intros He; destruct_or!; subst; simpl; rewrite ?elem_of_cons; tauto.
Qed.

Lemma timedName_not_transition status d :
  status = STATUS_AWAY ∨ status = STATUS_ONLINE →
  timedName status d ∉ ["status-change"; "status:away"; "status:online"].
Proof.
  rewrite !not_elem_of_cons.
  intros [-> | ->]; split_and!; try discriminate; apply not_elem_of_nil.
Qed.

(** The status after a tick is valid if it was before. *)
Lemma afterTransitions_validStatus idleTime w :
  validStatus (this w) → validStatus (this (afterTransitions idleTime w)).
Proof.
  unfold afterTransitions, validStatus.
  repeat case_decide; simpl; auto.
Qed.

Lemma elem_of_names name log :
  name ∈ names log ↔ ∃ e, e ∈ log ∧ em_name e = name.
Proof.
  unfold names. rewrite list_elem_of_fmap. split.
  - intros (e & -> & He). eauto.
  - intros (e & He & <-). eauto.
Qed.

(** In a tick that looks at the registry with the status 'away', the
    event 'away:<d>' is emitted exactly when some entry (away, d) is
    registered and the idle time beyond the threshold has reached d. *)
Lemma away_event_iff idleTime w d :
  currentStatus (this (afterTransitions idleTime w)) = Some STATUS_AWAY →
  timedName STATUS_AWAY d ∈ names (emissions (pollStatus idleTime) w)
  ↔ (∃ timedEvent, timedEvent ∈ timedEvents (this w)
       ∧ TimedEvent.status timedEvent = Some STATUS_AWAY
       ∧ TimedEvent.duration timedEvent = Some d)
    ∧ d ≤ idleTime - inactivityDuration (this w).
Proof.
  intros Hs.
  destruct (afterTransitions_frame idleTime w)
    as (Hinact & _ & _ & Hreg & _ & _ & _).
  rewrite elem_of_names, pollStatus_emissions. split.
  - intros (e & [He | He]%elem_of_app & Hname).
    + apply transitionLog_names in He. rewrite Hname in He.
      by destruct (timedName_not_transition STATUS_AWAY d (or_introl eq_refl)).
    + unfold timedLogOf in He.
      apply timedLog_elem in He as (te & k & Hin & Hf & ->).
      apply (entryFires_away _ _ _ _ Hs) in Hf as (Hst & d' & Hd & Hle).
      destruct te as [st du l]. simpl in Hst, Hd. subst st du.
      rewrite entryEmission_timedName in Hname.
      apply timedName_inj in Hname as ->.
      rewrite Hreg in Hin. rewrite Hinact in Hle. split; [| done].
      by exists (TimedEvent.mk (Some STATUS_AWAY) (Some d) l).
  - intros [(te & Hin & Hst & Hd) Hle].
    exists (entryEmission (this (afterTransitions idleTime w)) te). split.
    + apply elem_of_app. right. unfold timedLogOf.
      apply timedLog_fires_from; [by rewrite Hreg |].
      intros k _. apply (entryFires_away _ _ _ _ Hs).
      split; [done |]. exists d. by rewrite Hinact.
    + destruct te as [st du l]. simpl in Hst, Hd. by subst st du.
Qed.

(** If the idle time has reached the threshold, the tick looks at the
    registry with the status 'away', whatever valid status it began in. *)
Lemma afterTransitions_away idleTime w :
  validStatus (this w) →
  inactivityDuration (this w) ≤ idleTime →
  currentStatus (this (afterTransitions idleTime w)) = Some STATUS_AWAY.
Proof.
  intros Hv Hle. unfold afterTransitions.
  destruct (decide (awayGuard (this w) idleTime)) as [Ha | Ha]; [done |].
  destruct (decide (onlineGuard (this w) idleTime)) as [[_ Hlt] | Ho]; [lia |].
  destruct Hv as [Hs | Hs]; [done |]. destruct Ha. by split.
Qed.

(** A tick leaves the registry and the threshold as they are and keeps
    the status valid. *)
Lemma pollStatus_frame idleTime w :
  let o' := this (world_of (pollStatus idleTime w)) in
  inactivityDuration o' = inactivityDuration (this w)
  ∧ timedEvents o' = timedEvents (this w)
  ∧ _events o' = _events (this w)
  ∧ (validStatus (this w) → validStatus o').
Proof.
  simpl. rewrite pollStatus_this.
  destruct (afterTransitions_frame idleTime w)
    as (Hinact & _ & _ & Hreg & Hev & _ & _).
  split_and!; auto using afterTransitions_validStatus.
Qed.

Lemma tickLogs_length samples w : length (tickLogs samples w) = length samples.
Proof.
  revert w. induction samples as [| idleTime rest IH]; intros w; simpl; auto.
Qed.

(** C3: take an entry of the registry with the status 'away' and the
    threshold d.  In every poll tick that looks at the registry with the
    status 'away', the event 'away:<d>' is emitted exactly when
    [idleTime - inactivityDuration >= d]; the same holds of every tick
    that begins with the status 'away', for d >= 0.  Nothing is latched:
    in a run of ticks whose idle times all satisfy the condition, every
    tick emits the event. *)
Theorem away_timed_event_level_triggered (w : World) (entry : TimedEvent.t)
    (d : Z) :
  entry ∈ timedEvents (this w) →
  TimedEvent.status entry = Some STATUS_AWAY →
  TimedEvent.duration entry = Some d →
  (∀ idleTime w2,
     transitions idleTime w = Returned tt w2 →
     currentStatus (this w2) = Some STATUS_AWAY →
     timedName STATUS_AWAY d ∈ names (emissions (pollStatus idleTime) w)
     ↔ d ≤ idleTime - inactivityDuration (this w))
  ∧ (∀ idleTime,
       currentStatus (this w) = Some STATUS_AWAY → 0 ≤ d →
       timedName STATUS_AWAY d ∈ names (emissions (pollStatus idleTime) w)
       ↔ d ≤ idleTime - inactivityDuration (this w))
  ∧ (∀ samples,
       validStatus (this w) → 0 ≤ d →
       (∀ idleTime, idleTime ∈ samples →
                    d ≤ idleTime - inactivityDuration (this w)) →
       length (tickLogs samples w) = length samples
       ∧ Forall (fun log => timedName STATUS_AWAY d ∈ names log)
                (tickLogs samples w)).
Proof.
  intros Hin Hst Hd.
  assert (Hiff : ∀ idleTime,
            currentStatus (this (afterTransitions idleTime w))
            = Some STATUS_AWAY →
            timedName STATUS_AWAY d ∈ names (emissions (pollStatus idleTime) w)
            ↔ d ≤ idleTime - inactivityDuration (this w)).
  { intros idleTime Hs. rewrite (away_event_iff _ _ _ Hs). split.
    - by intros [_ ?].
    - intros Hle. split; [| done]. by exists entry. }
  split_and!.
  - intros idleTime w2 Ht Hs. rewrite transitions_returns in Ht.
    injection Ht as <-. by apply Hiff.
  - intros idleTime Hs Hd0.
    destruct (decide (inactivityDuration (this w) ≤ idleTime)) as [Hle | Hlt].
    + apply Hiff, afterTransitions_away; [by left | done].
    + split; [| lia]. intros Hname. exfalso.
      apply elem_of_names in Hname as (e & He & Hname).
      rewrite pollStatus_emissions in He.
      apply elem_of_app in He as [He | He].
      * apply transitionLog_names in He. rewrite Hname in He.
        by destruct (timedName_not_transition STATUS_AWAY d
                       (or_introl eq_refl)).
      * unfold timedLogOf in He.
        apply timedLog_elem in He as (te & k & _ & Hf & ->).
        apply entryEmission_name in Hf as (st & _ & Hcur & Hte & Hn).
        assert (Hon : currentStatus (this (afterTransitions idleTime w))
                      = Some STATUS_ONLINE).
        { unfold afterTransitions. rewrite decide_False.
          - rewrite decide_True; [done |]. split; [done | lia].
          - intros [Hs' _]. rewrite Hs in Hs'. discriminate. }
        rewrite Hon in Hcur. injection Hcur as <-.
        rewrite Hname in Hn. discriminate.
  - intros samples Hv Hd0 Hall. split; [apply tickLogs_length |].
    revert w Hin Hv Hall Hiff.
    induction samples as [| idleTime rest IH]; intros w Hin Hv Hall Hiff;
      simpl; [constructor |].
    destruct (pollStatus_frame idleTime w) as (Hinact & Hreg & _ & Hv').
    assert (Hle : d ≤ idleTime - inactivityDuration (this w))
      by (apply Hall, list_elem_of_here).
    constructor.
    + apply Hiff; [| done]. apply afterTransitions_away; [done | lia].
    + apply IH.
      * by rewrite Hreg.
      * by apply Hv'.
      * intros i Hi. rewrite Hinact. by apply Hall, list_elem_of_further.
      * intros i Hs. rewrite (away_event_iff _ _ _ Hs). split.
        -- by intros [_ ?].
        -- intros Hle'. split; [| done]. exists entry. by rewrite Hreg.
Qed.

Lemma away_timed_event_level_triggered_witness :
  let w := world_of ((constructor 5000 None None;;
                      on "away:3000" 1%nat) world0) in
  let entry := TimedEvent.mk (Some "away") (Some 3000) 1%nat in
  entry ∈ timedEvents (this w)
  ∧ "away:3000" ∈ names (emissions (pollStatus 8000) w)
  ∧ Forall (fun log => "away:3000" ∈ names log) (tickLogs [8000; 9000; 10000] w).
Proof.
  intros w entry.
  assert (Hin : entry ∈ timedEvents (this w)) by apply list_elem_of_here.
  destruct (away_timed_event_level_triggered w entry 3000 Hin eq_refl eq_refl)
    as (Htick & _ & Hrun).
  split_and!; [exact Hin | |].
  - apply (Htick 8000 (afterTransitions 8000 w)).
    + apply transitions_returns.
    + reflexivity.
    + simpl. lia.
  - apply (Hrun [8000; 9000; 10000]).
    + by right.
    + lia.
    + intros i Hi. simpl.
      rewrite !elem_of_cons, elem_of_nil in Hi. lia.
Defined.

Lemma transitions_emissions idleTime w :
  emissions (transitions idleTime) w = transitionLog idleTime w.
Proof.
  eapply emissions_append; [apply transitions_returns |].
  apply afterTransitions_emitted.
Qed.

Lemma forEach_timed_emissions idleTime entries w :
  emissions (forEach entries (timedEventCallback idleTime)) w
  = (timedLog (this w) (clock w) idleTime (reads w) entries).1.
Proof. eapply emissions_append; [apply forEach_timed |]. reflexivity. Qed.

Lemma timedEventCallback_emissions idleTime timedEvent w :
  emissions (timedEventCallback idleTime timedEvent) w
  = if entryFires (this w) idleTime (clock w (reads w)) timedEvent
    then [entryEmission (this w) timedEvent] else [].
Proof.
  eapply emissions_append; [apply timedEventCallback_returns |]. reflexivity.
Qed.

(** The callback of an entry (online, d), run with the status 'online',
    emits 'online:<d>' exactly when the instant it reads is at least d
    after the instant of coming online. *)
Lemma online_callback_iff idleTime entry d w :
  TimedEvent.status entry = Some STATUS_ONLINE →
  TimedEvent.duration entry = Some d →
  currentStatus (this w) = Some STATUS_ONLINE →
  timedName STATUS_ONLINE d
    ∈ names (emissions (timedEventCallback idleTime entry) w)
  ↔ ∃ since, userLastCameOnlineAt (this w) = Some since
             ∧ d ≤ clock w (reads w) - since.
Proof.
  intros Hst Hd Hs. rewrite timedEventCallback_emissions.
  pose proof (entryFires_online (this w) idleTime (clock w (reads w)) entry Hs)
    as Hf.
  destruct (entryFires (this w) idleTime (clock w (reads w)) entry).
  - destruct (proj1 Hf eq_refl) as (_ & d' & since & Hd' & Hsince & Hle).
    rewrite Hd in Hd'. injection Hd' as <-. split; [by eauto |].
    intros _. apply elem_of_names. eexists. split; [apply list_elem_of_here |].
    destruct entry as [st du l]. simpl in Hst, Hd. by subst st du.
  - split; [by intros ?%elem_of_nil |].
    intros (since & Hsince & Hle).
    assert (false = true); [| done].
    apply Hf. split; [done |]. by exists d, since.
Qed.

(** C4: take an entry of the registry with the status 'online' and the
    threshold d.  A poll tick runs the status part, then the callback of
    every entry in order.  When the registry is looked at with the status
    'online', the callback of this entry emits 'online:<d>' exactly when
    [Date.now() - userLastCameOnlineAt >= d], for the instant it reads
    itself; after a transition to 'online' in the same tick that instant
    of coming online is the one [setStatus] read.  Nothing is latched: in
    a run of ticks that stay below the idle threshold, with a clock that
    does not go back, once the condition holds every tick emits the
    event. *)
Theorem online_timed_event_level_triggered (w : World)
    (before after : list TimedEvent.t) (entry : TimedEvent.t) (d : Z) :
  timedEvents (this w) = before ++ entry :: after →
  TimedEvent.status entry = Some STATUS_ONLINE →
  TimedEvent.duration entry = Some d →
  (∀ idleTime, ∃ w2 wb we w3,
      transitions idleTime w = Returned tt w2
      ∧ forEach before (timedEventCallback idleTime) w2 = Returned tt wb
      ∧ timedEventCallback idleTime entry wb = Returned tt we
      ∧ forEach after (timedEventCallback idleTime) we = Returned tt w3
      ∧ pollStatus idleTime w = Returned tt w3
      ∧ emissions (pollStatus idleTime) w
        = emissions (transitions idleTime) w
          ++ emissions (forEach before (timedEventCallback idleTime)) w2
          ++ emissions (timedEventCallback idleTime entry) wb
          ++ emissions (forEach after (timedEventCallback idleTime)) we
      ∧ this wb = this w2
      ∧ clock wb = clock w
      ∧ (onlineGuard (this w) idleTime →
         currentStatus (this w2) = Some STATUS_ONLINE
         ∧ userLastCameOnlineAt (this w2) = Some (clock w (reads w)))
      ∧ (currentStatus (this w2) = Some STATUS_ONLINE →
         timedName STATUS_ONLINE d
           ∈ names (emissions (timedEventCallback idleTime entry) wb)
         ↔ ∃ since, userLastCameOnlineAt (this w2) = Some since
                    ∧ d ≤ clock w (reads wb) - since))
  ∧ (∀ samples since,
       currentStatus (this w) = Some STATUS_ONLINE →
       userLastCameOnlineAt (this w) = Some since →
       (∀ idleTime, idleTime ∈ samples →
                    idleTime < inactivityDuration (this w)) →
       (∀ i j, (reads w ≤ i ≤ j)%nat → clock w i ≤ clock w j) →
       d ≤ clock w (reads w) - since →
       length (tickLogs samples w) = length samples
       ∧ Forall (fun log => timedName STATUS_ONLINE d ∈ names log)
                (tickLogs samples w)).
Proof.
  intros Hreg Hst Hd. split.
  - intros idleTime.
    destruct (afterTransitions_frame idleTime w)
      as (_ & _ & _ & Hreg2 & _ & Hclk & _).
    set (cb := timedEventCallback idleTime).
    set (w2 := afterTransitions idleTime w) in *.
    set (wb := world_of (forEach before cb w2)).
    set (we := world_of (cb entry wb)).
    set (w3 := world_of (forEach after cb we)).
    assert (Eb : forEach before cb w2 = Returned tt wb)
      by (unfold wb, cb; by rewrite forEach_timed).
    assert (Ee : cb entry wb = Returned tt we)
      by (unfold we, cb; by rewrite timedEventCallback_returns).
    assert (Ea : forEach after cb we = Returned tt w3)
      by (unfold w3, cb; by rewrite forEach_timed).
    assert (Ep : pollStatus idleTime w = Returned tt w3).
    { rewrite (pollStatus_transitions idleTime w w2)
        by apply transitions_returns.
      unfold evalTimedEvents. js_unfold. fold cb.
      rewrite Hreg2, Hreg, (forEach_app _ _ _ _ _ Eb). simpl.
      by rewrite (bind_returned _ _ _ _ _ Ee). }
    assert (Hwb : this wb = this w2 ∧ clock wb = clock w
                  ∧ emitted wb
                    = emitted w2 ++ emissions (forEach before cb) w2).
    { split_and!.
      - unfold wb, cb. by rewrite forEach_timed.
      - unfold wb, cb. by rewrite forEach_timed.
      - eapply emitted_via_emissions; [exact Eb |].
        unfold wb, cb. by rewrite forEach_timed. }
    destruct Hwb as (Hthis & Hclkb & Hlogb).
    exists w2, wb, we, w3.
    split_and!; try done.
    + apply transitions_returns.
    + eapply emissions_append; [exact Ep |].
      transitivity (emitted we ++ emissions (forEach after cb) we).
      { eapply emitted_via_emissions; [exact Ea |].
        unfold w3, cb. by rewrite forEach_timed. }
      assert (emitted we = emitted wb ++ emissions (cb entry) wb) as ->.
      { eapply emitted_via_emissions; [exact Ee |].
        unfold we, cb. by rewrite timedEventCallback_returns. }
      rewrite Hlogb. unfold w2 at 1.
      rewrite afterTransitions_emitted, transitions_emissions.
      by rewrite <- !app_assoc.
    + intros Ho. unfold w2, afterTransitions.
      rewrite decide_False by (intros Ha; by apply (guards_exclusive _ _ Ha)).
      by rewrite decide_True.
    + intros Hs. unfold cb.
      rewrite (online_callback_iff idleTime entry d wb Hst Hd)
        by by rewrite Hthis.
      by rewrite Hthis, Hclkb.
  - intros samples since Hs Hsince Hall Hmono Hle.
    split; [apply tickLogs_length |].
    assert (Hin : entry ∈ timedEvents (this w)).
    { rewrite Hreg. apply elem_of_app. right. apply list_elem_of_here. }
    clear Hreg. revert w Hin Hs Hsince Hall Hmono Hle.
    induction samples as [| idleTime rest IH];
      intros w Hin Hs Hsince Hall Hmono Hle; simpl; [constructor |].
    assert (Hlt : idleTime < inactivityDuration (this w))
      by (apply Hall, list_elem_of_here).
    assert (Hstay : afterTransitions idleTime w = w).
    { unfold afterTransitions. rewrite !decide_False; [done | |].
      - intros [Hs' _]. rewrite Hs in Hs'. discriminate.
      - intros [_ ?]. lia. }
    constructor.
    + apply elem_of_names. exists (entryEmission (this w) entry). split.
      * rewrite pollStatus_emissions. apply elem_of_app. right.
        unfold timedLogOf. rewrite Hstay.
        apply timedLog_fires_from; [done |].
        intros k Hk. apply (entryFires_online _ _ _ _ Hs).
        split; [done |]. exists d, since. split_and!; [done | done |].
        specialize (Hmono (reads w) k). lia.
      * destruct entry as [st du l]. simpl in Hst, Hd. by subst st du.
    + pose proof (timedLog_reads (this w) (clock w) idleTime (reads w)
                    (timedEvents (this w))) as Hr.
      rewrite pollStatus_returns, Hstay. simpl. apply IH; simpl; try done.
      * intros i Hi. by apply Hall, list_elem_of_further.
      * intros i j Hij. apply Hmono. lia.
      * specialize (Hmono (reads w)
          (timedLog (this w) (clock w) idleTime (reads w)
                    (timedEvents (this w))).2).
        lia.
Qed.

Lemma online_timed_event_level_triggered_witness :
  let w := world_of ((constructor 5000 None None;; on "online:2000" 1%nat)
                       (mkWorld blank (fun k => 1000 + 5000 * Z.of_nat k)
                                0%nat ∅ 0%nat [])) in
  let entry := TimedEvent.mk (Some "online") (Some 2000) 1%nat in
  timedEvents (this w) = [] ++ entry :: []
  ∧ TimedEvent.status entry = Some STATUS_ONLINE
  ∧ TimedEvent.duration entry = Some 2000
  ∧ Forall (fun log => "online:2000" ∈ names log) (tickLogs [10; 20; 30] w).
Proof.
  intros w entry.
  assert (Hreg : timedEvents (this w) = [] ++ entry :: []) by reflexivity.
  split_and!; [exact Hreg | reflexivity | reflexivity |].
  destruct (online_timed_event_level_triggered w [] [] entry 2000 Hreg
              eq_refl eq_refl) as [_ Hrun].
  apply (Hrun [10; 20; 30] 1000).
  - reflexivity.
  - reflexivity.
  - intros i Hi. simpl. rewrite !elem_of_cons, elem_of_nil in Hi. lia.
  - intros i j Hij. simpl. lia.
  - simpl. lia.
Defined.

(** ** A name with leading zeros *)

(** With the single subscription [on("away:007", l)], no emission of a
    tick has the name 'away:007' or calls a listener. *)
Lemma leading_zeros_tick idleTime w l :
  timedEvents (this w) = [TimedEvent.mk (Some "away") (Some 7) l] →
  _events (this w) = <["away:007" := [l]]> ∅ →
  ∀ e, e ∈ emissions (pollStatus idleTime) w →
       em_name e ≠ "away:007" ∧ em_listeners e = [].
Proof.
  intros Hreg Hev e. rewrite pollStatus_emissions, elem_of_app.
  destruct (afterTransitions_frame idleTime w)
    as (_ & _ & _ & Hreg2 & Hev2 & _ & _).
  assert (Hnone : ∀ o name, _events o = <["away:007" := [l]]> ∅ →
                    name ≠ "away:007" → listeners_of o name = []).
  { intros o name Ho Hne. unfold listeners_of.
    rewrite Ho, lookup_insert_ne by done. by rewrite lookup_empty. }
  intros [He | He].
  - unfold transitionLog, awayEmissions, onlineEmissions in He.
    repeat case_decide; rewrite ?elem_of_cons, ?elem_of_nil in He;
      destruct_or!; subst; simpl; (split; [discriminate |]);
      by apply Hnone.
  - unfold timedLogOf in He.
    apply timedLog_elem in He as (te & k & Hin & _ & ->).
    rewrite Hreg2, Hreg in Hin. apply list_elem_of_singleton in Hin as ->.
    split; [discriminate |]. simpl. apply Hnone; [| discriminate].
    by rewrite Hev2.
Qed.

(** C10: after [new NodeAFK(inactivity, poll)] and [on("away:007", l)],
    the registry holds the single entry (away, 7, l) and [l] is a listener
    of the literal name 'away:007'.  A tick with the idle time 7 beyond
    the threshold emits the timed event under the name 'away:7', which has
    no listener; and in no run of ticks is any event named 'away:007'
    emitted or the listener [l] called. *)
Theorem leading_zeros_never_reach_the_listener (inactivity : Z)
    (poll : option Z) (l : Listener) (w0 : World) :
  ∃ w, (constructor inactivity poll None;; on "away:007" l) w0 = Returned tt w
    ∧ timedEvents (this w) = [TimedEvent.mk (Some "away") (Some 7) l]
    ∧ listeners_of (this w) "away:007" = [l]
    ∧ (∃ e, e ∈ emissions (pollStatus (inactivity + 7)) w
            ∧ em_name e = "away:7" ∧ em_listeners e = [])
    ∧ (∀ samples log e,
         log ∈ tickLogs samples w → e ∈ log →
         em_name e ≠ "away:007" ∧ l ∉ em_listeners e).
Proof.
  set (w := world_of ((constructor inactivity poll None;;
                       on "away:007" l) w0)).
  assert (Hreg : timedEvents (this w) = [TimedEvent.mk (Some "away") (Some 7) l])
    by reflexivity.
  assert (Hev : _events (this w) = <["away:007" := [l]]> ∅) by reflexivity.
  assert (Hs : validStatus (this w)) by (by right).
  assert (Hi : inactivityDuration (this w) = inactivity) by reflexivity.
  exists w. split_and!; [reflexivity | done | | |].
  - unfold listeners_of. by rewrite Hev, lookup_insert_eq.
  - assert (Hname : timedName STATUS_AWAY 7
                      ∈ names (emissions (pollStatus (inactivity + 7)) w)).
    { apply away_event_iff.
      - apply afterTransitions_away; [done | lia].
      - split; [| lia]. eexists. rewrite Hreg.
        split; [apply list_elem_of_here | done]. }
    apply elem_of_names in Hname as (e & He & Hname).
    exists e. split_and!; [done | done |].
    by apply (leading_zeros_tick _ _ _ Hreg Hev e He).
  - intros samples. clearbody w. clear Hs Hi.
    revert w Hreg Hev.
    induction samples as [| idleTime rest IH]; intros w Hreg Hev log e; simpl.
    + by intros ?%elem_of_nil.
    + destruct (pollStatus_frame idleTime w) as (_ & Hreg' & Hev' & _).
      intros [-> | Hlog]%elem_of_cons He.
      * destruct (leading_zeros_tick _ _ _ Hreg Hev e He) as [Hn Hl].
        split; [done |]. rewrite Hl. apply not_elem_of_nil.
      * eapply IH; [| | exact Hlog | exact He].
        -- by rewrite Hreg'.
        -- by rewrite Hev'.
Qed.

(** * Further properties of the code *)

(** ** Numbers and their decimal names *)

Lemma Number_from_length acc ds :
  Number_from acc ds
  = acc * 10 ^ Z.of_nat (String.length ds) + Number_from 0 ds.
Proof.
  revert acc. induction ds as [| c ds IH]; intros acc.
  - simpl. lia.
  - cbn [Number_from String.length]. rewrite IH, (IH (10 * 0 + digit_value c)).
    rewrite Nat2Z.inj_succ, Z.pow_succ_r by lia. lia.
Qed.

Lemma pretty_N_char_digit x :
  (x < 10)%N →
  is_digit (pretty_N_char x) = true ∧ digit_value (pretty_N_char x) = Z.of_N x.
Proof.
  intros Hx.
  assert (Hcases : x ∈ [0; 1; 2; 3; 4; 5; 6; 7; 8; 9]%N).
  { rewrite !elem_of_cons. lia. }
  rewrite !elem_of_cons, elem_of_nil in Hcases.
  destruct_or!; subst; try done.
Qed.

Lemma pretty_N_go_decimal x s :
  all_digits s = true →
  all_digits (pretty_N_go x s) = true
  ∧ Number (pretty_N_go x s)
    = Z.of_N x * 10 ^ Z.of_nat (String.length s) + Number s
  ∧ (s ≠ "" ∨ 0 < x → pretty_N_go x s ≠ "")%N.
Proof.
  revert s. induction (N.lt_wf_0 x) as [x _ IH]. intros s Hs.
  destruct (decide (x = 0)%N) as [-> | Hx].
  - rewrite pretty_N_go_0. split_and!; [done | simpl; lia |].
    intros [? | ?]; [done | lia].
  - rewrite pretty_N_go_step by lia.
    destruct (pretty_N_char_digit (x `mod` 10)) as [Hd Hv].
    { apply N.mod_lt. lia. }
    destruct (IH (x `div` 10)%N (N.div_lt x 10 ltac:(lia) ltac:(lia))
                 (String (pretty_N_char (x `mod` 10)) s)) as (Ha & Hn & Hne).
    { simpl. by rewrite Hd, Hs. }
    split_and!; [done | | intros _; apply Hne; by left].
    rewrite Hn. unfold Number. cbn [Number_from String.length].
    rewrite (Number_from_length (10 * 0 + _)), Hv.
    rewrite Nat2Z.inj_succ, Z.pow_succ_r by lia.
    rewrite (N.div_mod x 10) at 3 by lia.
    rewrite N2Z.inj_add, N2Z.inj_mul. unfold Number. lia.
Qed.

(** The decimal name of a number that is not negative is a non-empty
    string of digits, and [Number] reads the number back from it. *)
Lemma pretty_decimal (n : Z) :
  0 ≤ n →
  pretty n ≠ "" ∧ all_digits (pretty n) = true ∧ Number (pretty n) = n.
Proof.
  intros Hn. destruct n as [| p |]; [done | | lia].
  change (pretty (Z.pos p)) with (pretty_N_go (N.pos p) "").
  destruct (pretty_N_go_decimal (N.pos p) "" eq_refl) as (Ha & Hv & Hne).
  split_and!; [apply Hne; right; lia | done |].
  rewrite Hv. change (Number "") with 0.
  change (Z.of_nat (String.length "")) with 0.
  rewrite Z.pow_0_r. simpl. lia.
Qed.

(** The fields of a new instance. *)
Lemma constructor_fields inactivity poll initial w0 :
  default STATUS_ONLINE initial ∈ [STATUS_AWAY; STATUS_ONLINE] →
  ∃ w, constructor inactivity poll initial w0 = Returned tt w
    ∧ inactivityDuration (this w) = inactivity
    ∧ pollInterval (this w) = default 1000 poll
    ∧ statusConsistent (this w)
    ∧ timedEvents (this w) = []
    ∧ _events (this w) = ∅
    ∧ pollIntervalId (this w) = None
    ∧ intervals w = intervals w0
    ∧ timerSeq w = timerSeq w0.
Proof.
  rewrite !elem_of_cons, elem_of_nil. unfold constructor, statusConsistent.
  intros [-> | [-> | []]]; eexists; (split; [reflexivity |]);
    simpl; split_and!; try reflexivity; [by left | right; by eauto].
Qed.

(** X1: [new NodeAFK(inactivityDuration, pollInterval, initialStatus)]
    with a valid (or omitted) initial status returns an instance that
    holds the threshold, the poll interval (1000 when omitted) and the
    initial status ('online' when omitted), with an empty registry, no
    listener and no timer handle; the instant of coming online is the one
    [Date.now()] gave if the status is 'online' and undefined otherwise.
    Constructing starts no timer and emits nothing. *)
Theorem constructor_initial_state (inactivity : Z) (poll : option Z)
    (initial : option string) (w0 : World) :
  default STATUS_ONLINE initial ∈ [STATUS_AWAY; STATUS_ONLINE] →
  ∃ w, constructor inactivity poll initial w0 = Returned tt w
    ∧ inactivityDuration (this w) = inactivity
    ∧ pollInterval (this w) = default 1000 poll
    ∧ currentStatus (this w) = Some (default STATUS_ONLINE initial)
    ∧ userLastCameOnlineAt (this w)
      = (if bool_decide (default STATUS_ONLINE initial = STATUS_ONLINE)
         then Some (clock w0 (reads w0)) else None)
    ∧ timedEvents (this w) = []
    ∧ _events (this w) = ∅
    ∧ pollIntervalId (this w) = None
    ∧ intervals w = intervals w0
    ∧ timerSeq w = timerSeq w0
    ∧ emitted w = emitted w0
    ∧ clock w = clock w0.
Proof.
  rewrite !elem_of_cons, elem_of_nil. unfold constructor.
  intros [-> | [-> | []]]; eexists; (split; [reflexivity |]);
    simpl; split_and!; reflexivity.
Qed.

Lemma constructor_initial_state_witness :
  default STATUS_ONLINE None ∈ [STATUS_AWAY; STATUS_ONLINE]
  ∧ ∃ w, constructor 5000 None None world0 = Returned tt w
         ∧ pollInterval (this w) = 1000
         ∧ currentStatus (this w) = Some "online"
         ∧ userLastCameOnlineAt (this w) = Some 1000
         ∧ intervals w = ∅.
Proof.
  assert (Hin : default STATUS_ONLINE None ∈ [STATUS_AWAY; STATUS_ONLINE])
    by (apply list_elem_of_further, list_elem_of_here).
  split; [exact Hin |].
  destruct (constructor_initial_state 5000 None None world0 Hin)
    as (w & E & _ & Hp & Hs & Ht & _ & _ & _ & Hi & _).
  exists w. split_and!; [exact E | exact Hp | exact Hs | exact Ht | exact Hi].
Defined.

(** ** [parseEventName], all cases *)



Lemma parseEventName_pretty status d :
  status = STATUS_AWAY ∨ status = STATUS_ONLINE → 0 ≤ d →
  parseEventName (timedName status d)
  = EventNameInfo.mk true (Some status) (Some d).
Proof.
  intros Hst Hd. destruct (pretty_decimal d Hd) as (Hne & Hdigits & Hnum).
  assert (Hp : timedPattern status (pretty d)).
  { split_and!; [done | done | by apply all_digits_Forall]. }
  unfold timedName. by rewrite (parseEventName_timedPattern _ _ Hp), Hnum.
Qed.



(** ** The transition back to 'online' and the status after a tick *)

(** X4: from the status 'away', a poll tick goes to 'online' exactly when
    the idle time is below [inactivityDuration].  On that transition the
    tick first emits 'status-change' with the payload
    [{previousStatus: 'away', currentStatus: 'online'}], then
    'status:online', and the listeners of both see the instance as it was,
    with the status 'away'; the status is committed afterwards together
    with the instant [Date.now()] gives, and what the tick emits later
    sees the committed instance.  At or above the threshold the instance
    stays as it was and neither of the two events is emitted. *)
Theorem away_to_online_emits_then_commits (w : World) (idleTime : Z) :
  currentStatus (this w) = Some STATUS_AWAY →
  ∃ w' timed,
    pollStatus idleTime w = Returned tt w'
    ∧ (currentStatus (this w') = Some STATUS_ONLINE
       ↔ idleTime < inactivityDuration (this w))
    ∧ (idleTime < inactivityDuration (this w) →
       emissions (pollStatus idleTime) w
       = mkEmission "status-change"
                    (Some (Payload.mk "away" "online"))
                    (listeners_of (this w) "status-change") (this w)
         :: mkEmission "status:online" None
                       (listeners_of (this w) "status:online") (this w)
         :: timed
       ∧ this w' = committed "online" (Some (clock w (reads w))) (this w)
       ∧ Forall (fun e => em_this e = this w') timed)
    ∧ (inactivityDuration (this w) ≤ idleTime →
       emissions (pollStatus idleTime) w = timed
       ∧ this w' = this w
       ∧ Forall (fun e => em_name e ≠ "status-change"
                          ∧ em_name e ≠ "status:online") timed).
Proof.
  intros Hs. exists (world_of (pollStatus idleTime w)), (timedLogOf idleTime w).
  assert (Hno : ¬ awayGuard (this w) idleTime).
  { intros [Hs' _]. rewrite Hs in Hs'. discriminate. }
  assert (Htimed : Forall (fun e => em_this e = this (afterTransitions idleTime w)
                             ∧ em_name e ≠ "status-change"
                             ∧ em_name e ≠ "status:online")
                     (timedLogOf idleTime w)).
  { apply Forall_forall. intros e (Ht & _ & Hn)%timedLogOf_elem.
    rewrite !not_elem_of_cons in Hn. tauto. }
  rewrite pollStatus_emissions, pollStatus_this.
  split; [by rewrite pollStatus_returns |].
  unfold afterTransitions, transitionLog in *.
  rewrite !(decide_False (P := awayGuard (this w) idleTime)) in * by done.
  destruct (decide (onlineGuard (this w) idleTime)) as [[_ Hi] | Hg].
  - split_and!.
    + simpl. split; [done | reflexivity].
    + intros _. split_and!; [done | done |].
      eapply Forall_impl; [exact Htimed |]. by intros e [? _].
    + lia.
  - assert (Hle : inactivityDuration (this w) ≤ idleTime).
    { destruct (decide (idleTime < inactivityDuration (this w))); [| lia].
      destruct Hg. by split. }
    split_and!.
    + rewrite Hs. split; [discriminate | lia].
    + lia.
    + intros _. split_and!; [done | done |].
      eapply Forall_impl; [exact Htimed |]. by intros e (_ & ? & ?).
Qed.

Lemma away_to_online_emits_then_commits_witness :
  let w := world_of ((constructor 5000 None (Some "away");;
                      on "status:online" 1%nat) world0) in
  currentStatus (this w) = Some STATUS_AWAY
  ∧ ∃ w' timed,
      pollStatus 10 w = Returned tt w'
      ∧ currentStatus (this w') = Some STATUS_ONLINE
      ∧ userLastCameOnlineAt (this w') = Some 1000
      ∧ emissions (pollStatus 10) w
        = mkEmission "status-change" (Some (Payload.mk "away" "online"))
                     [] (this w)
          :: mkEmission "status:online" None [1%nat] (this w) :: timed.
Proof.
  intros w. assert (Hs : currentStatus (this w) = Some STATUS_AWAY)
    by reflexivity.
  split; [exact Hs |].
  destruct (away_to_online_emits_then_commits w 10 Hs)
    as (w' & timed & E & Hiff & Honline & _).
  assert (Hlt : 10 < inactivityDuration (this w)) by (simpl; lia).
  exists w', timed. destruct (Honline Hlt) as (Hlog & Hthis & _).
  split_and!; [exact E | by apply Hiff | by rewrite Hthis | exact Hlog].
Defined.

(** X5: after a poll tick the status is the one the sampled idle time
    calls for, whatever valid status the tick began with: 'away' exactly
    when the idle time has reached [inactivityDuration], 'online' exactly
    when it is below.  The tick emits 'status-change' exactly when the
    status changes, and then with the status before and the status after
    as its payload; a tick that does not change the status leaves the
    whole instance as it was, the instant of coming online included. *)
Theorem tick_tracks_idle_time (w : World) (idleTime : Z) :
  validStatus (this w) →
  let w' := world_of (pollStatus idleTime w) in
  (currentStatus (this w') = Some STATUS_AWAY
   ↔ inactivityDuration (this w) ≤ idleTime)
  ∧ (currentStatus (this w') = Some STATUS_ONLINE
     ↔ idleTime < inactivityDuration (this w))
  ∧ ("status-change" ∈ names (emissions (pollStatus idleTime) w)
     ↔ currentStatus (this w') ≠ currentStatus (this w))
  ∧ (currentStatus (this w') = currentStatus (this w) → this w' = this w)
  ∧ (∀ e, e ∈ emissions (pollStatus idleTime) w →
          em_name e = "status-change" →
          ∃ before after,
            currentStatus (this w) = Some before
            ∧ currentStatus (this w') = Some after
            ∧ em_payload e = Some (Payload.mk before after)).
Proof.
  intros Hv. simpl. rewrite pollStatus_this, pollStatus_emissions.
  assert (Htimed : ∀ e, e ∈ timedLogOf idleTime w →
                        em_name e ≠ "status-change").
  { intros e (_ & _ & Hn)%timedLogOf_elem.
    rewrite !not_elem_of_cons in Hn. tauto. }
  assert (Hnames : ∀ log, "status-change" ∈ names (log ++ timedLogOf idleTime w)
                          ↔ "status-change" ∈ names log).
  { intros log. rewrite !elem_of_names. split.
    - intros (e & [He | He]%elem_of_app & Hn); [by eauto |].
      by destruct (Htimed e He).
    - intros (e & He & Hn). exists e. split; [| done].
      apply elem_of_app. by left. }
  rewrite Hnames.
  unfold afterTransitions, transitionLog.
  destruct (decide (awayGuard (this w) idleTime)) as [[Hs Hi] | Ha].
  - simpl. rewrite Hs. split_and!.
    + done.
    + split; [discriminate | lia].
    + split; [discriminate |]. intros _. apply list_elem_of_here.
    + discriminate.
    + intros e He Hn. rewrite !elem_of_cons in He.
      destruct He as [-> | [-> | He]];
        [| discriminate | by destruct (Htimed e He)].
      by exists STATUS_ONLINE, STATUS_AWAY.
  - destruct (decide (onlineGuard (this w) idleTime)) as [[Hs Hi] | Ho].
    + simpl. rewrite Hs. split_and!.
      * split; [discriminate | lia].
      * done.
      * split; [discriminate |]. intros _. apply list_elem_of_here.
      * discriminate.
      * intros e He Hn. rewrite !elem_of_cons in He.
        destruct He as [-> | [-> | He]];
          [| discriminate | by destruct (Htimed e He)].
        by exists STATUS_AWAY, STATUS_ONLINE.
    + unfold awayGuard in Ha. unfold onlineGuard in Ho.
      split_and!.
      * destruct Hv as [Hs | Hs]; rewrite Hs.
        -- split; [| done]. intros _.
           destruct (decide (inactivityDuration (this w) ≤ idleTime));
             [done |]. destruct Ho. split; [done | lia].
        -- split; [discriminate |]. intros Hle. destruct Ha. by split.
      * destruct Hv as [Hs | Hs]; rewrite Hs.
        -- split; [discriminate |]. intros Hlt. destruct Ho. by split.
        -- split; [| done]. intros _.
           destruct (decide (idleTime < inactivityDuration (this w)));
             [done |]. destruct Ha. split; [done | lia].
      * split; [by intros ?%elem_of_nil | done].
      * done.
      * intros e [He | He]%elem_of_app Hn; [by apply elem_of_nil in He |].
        by destruct (Htimed e He).
Qed.

Lemma tick_tracks_idle_time_witness :
  let w := world_of (constructor 5000 None None world0) in
  validStatus (this w)
  ∧ currentStatus (this (world_of (pollStatus 7000 w))) = Some STATUS_AWAY
  ∧ "status-change" ∈ names (emissions (pollStatus 7000) w).
Proof.
  intros w. assert (Hv : validStatus (this w)) by (by right).
  split; [exact Hv |].
  destruct (tick_tracks_idle_time w 7000 Hv) as (Haway & _ & Hchange & _).
  assert (Hs : currentStatus (this (world_of (pollStatus 7000 w)))
               = Some STATUS_AWAY) by (apply Haway; simpl; lia).
  split; [exact Hs |]. apply Hchange. rewrite Hs. discriminate.
Defined.

(** ** What a tick emits *)

(** An entry that fires has a status and a threshold, the status is the
    current one, and the name of its event is [<status>:<threshold>]. *)
Lemma entryFires_entry o idleTime now timedEvent :
  entryFires o idleTime now timedEvent = true →
  ∃ status d,
    (status = STATUS_AWAY ∨ status = STATUS_ONLINE)
    ∧ currentStatus o = Some status
    ∧ TimedEvent.status timedEvent = Some status
    ∧ TimedEvent.duration timedEvent = Some d
    ∧ em_name (entryEmission o timedEvent) = timedName status d.
Proof.
  intros Hf.
  destruct (entryFires_status _ _ _ _ Hf) as [[Hs | Hs] Hst].
  - apply (entryFires_away _ _ _ _ Hs) in Hf as (_ & d & Hd & _).
    exists STATUS_AWAY, d. destruct timedEvent as [st du l].
    simpl in *. subst. rewrite Hs. auto.
  - apply (entryFires_online _ _ _ _ Hs) in Hf as (_ & d & since & Hd & _).
    exists STATUS_ONLINE, d. destruct timedEvent as [st du l].
    simpl in *. subst. rewrite Hs. auto.
Qed.

(** X6: a poll tick emits nothing but the three status events and the
    timed events of registered entries.  Every other emission of a tick
    has the name [<status>:<threshold>] of an entry of the registry whose
    status is the status the tick ends with, and carries no payload: no
    entry fires for a status the instance is not in. *)
Theorem tick_emits_status_and_timed_events_only (w : World) (idleTime : Z)
    (e : Emission) :
  e ∈ emissions (pollStatus idleTime) w →
  (em_name e ∈ ["status-change"; "status:away"; "status:online"]
   ∧ em_this e = this w)
  ∨ (∃ entry status d,
       entry ∈ timedEvents (this w)
       ∧ (status = STATUS_AWAY ∨ status = STATUS_ONLINE)
       ∧ currentStatus (this (world_of (pollStatus idleTime w))) = Some status
       ∧ TimedEvent.status entry = Some status
       ∧ TimedEvent.duration entry = Some d
       ∧ em_name e = timedName status d
       ∧ em_payload e = None
       ∧ em_this e = this (world_of (pollStatus idleTime w))).
Proof.
  rewrite pollStatus_emissions, pollStatus_this.
  intros [He | He]%elem_of_app.
  - left. split; [by eapply transitionLog_names |].
    unfold transitionLog, awayEmissions, onlineEmissions in He.
    repeat case_decide; rewrite ?elem_of_cons, ?elem_of_nil in He;
      destruct_or!; by subst.
  - right. unfold timedLogOf in He.
    apply timedLog_elem in He as (te & k & Hin & Hf & ->).
    destruct (afterTransitions_frame idleTime w)
      as (_ & _ & _ & Hreg & _ & _ & _).
    apply entryFires_entry in Hf as (st & d & Hst & Hs & Hte & Hd & Hn).
    exists te, st, d. rewrite <- Hreg. split_and!; done.
Qed.

Lemma tick_emits_status_and_timed_events_only_witness :
  let w := world_of ((constructor 5000 None None;;
                      on "away:3000" 1%nat) world0) in
  let e := mkEmission "away:3000" None [1%nat]
                      (this (world_of (pollStatus 9000 w))) in
  e ∈ emissions (pollStatus 9000) w
  ∧ ∃ entry, entry ∈ timedEvents (this w)
             ∧ TimedEvent.status entry = Some STATUS_AWAY.
Proof.
  intros w e.
  assert (He : e ∈ emissions (pollStatus 9000) w).
  { apply list_elem_of_further, list_elem_of_further, list_elem_of_here. }
  split; [exact He |].
  destruct (tick_emits_status_and_timed_events_only w 9000 e He)
    as [[Hn _] | (entry & st & d & Hin & _ & Hs & Hst & _)].
  - exfalso. simpl in Hn. rewrite !elem_of_cons, elem_of_nil in Hn.
    destruct Hn as [Hn | [Hn | [Hn | []]]]; discriminate.
  - exists entry. split; [exact Hin |].
    rewrite Hst. rewrite <- Hs. reflexivity.
Defined.

(** With the status 'away' the log of the loop holds the event
    'away:<d>' once for each entry (away, d), if the condition holds. *)
Lemma timedLog_away_count o clk idleTime r entries d :
  currentStatus o = Some STATUS_AWAY →
  length (filter (fun e => em_name e = timedName STATUS_AWAY d)
                 (timedLog o clk idleTime r entries).1)
  = if bool_decide (d ≤ idleTime - inactivityDuration o)
    then length (entriesFor STATUS_AWAY d entries) else 0%nat.
Proof.
  intros Hs. revert r.
  induction entries as [| te rest IH]; intros r.
  - simpl. by case_bool_decide.
  - simpl timedLog.
    destruct (timedLog o clk idleTime
                (if entryReadsClock o te then S r else r) rest)
      as [log r'] eqn:E.
    specialize (IH (if entryReadsClock o te then S r else r)).
    rewrite E in IH. cbn [fst] in *.
    rewrite filter_app, length_app, IH. unfold entriesFor.
    rewrite filter_cons.
    pose proof (entryFires_away o idleTime (clk r) te Hs) as Hf.
    destruct (entryFires o idleTime (clk r) te).
    + destruct (proj1 Hf eq_refl) as (Hst & d' & Hd' & Hle).
      destruct te as [st du l]. simpl in Hst, Hd'. subst st du.
      rewrite filter_cons, entryEmission_timedName. simpl.
      destruct (decide (d' = d)) as [-> | Hne].
      * rewrite decide_True by done. rewrite decide_True by done.
        rewrite bool_decide_eq_true_2 by done. done.
      * rewrite decide_False by (intros ?%timedName_inj; done).
        rewrite decide_False by (intros [_ [= ?]]; done). done.
    + simpl. case_bool_decide as Hle; [| done].
      rewrite decide_False; [done |].
      intros [Hst Hd]. assert (false = true); [| done].
      apply Hf. split; [done |]. by exists d.
Qed.

(** X7: subscriptions to a timed event are not merged.  Every
    [on("away:<d>", l)] adds one more entry (away, d) to the registry,
    and a tick that ends with the status 'away' emits 'away:<d>' once per
    such entry when [idleTime - inactivityDuration >= d], and not at all
    otherwise; so with n entries every listener of the name is called n
    times in the tick. *)
Theorem timed_event_emitted_once_per_entry (w : World) (idleTime d : Z)
    (l : Listener) :
  0 ≤ d →
  currentStatus (this (world_of (pollStatus idleTime w))) = Some STATUS_AWAY →
  length (filter (fun e => em_name e = timedName STATUS_AWAY d)
                 (emissions (pollStatus idleTime) w))
  = (if bool_decide (d ≤ idleTime - inactivityDuration (this w))
     then length (entriesFor STATUS_AWAY d (timedEvents (this w)))
     else 0%nat)
  ∧ length (entriesFor STATUS_AWAY d
              (timedEvents (this (world_of (on (timedName STATUS_AWAY d) l w)))))
    = S (length (entriesFor STATUS_AWAY d (timedEvents (this w)))).
Proof.
  intros Hd Hs. split.
  - rewrite pollStatus_this in Hs.
    destruct (afterTransitions_frame idleTime w)
      as (Hinact & _ & _ & Hreg & _ & _ & _).
    rewrite pollStatus_emissions, filter_app, length_app.
    rewrite (filter_none _ (transitionLog idleTime w)).
    + unfold timedLogOf. rewrite (timedLog_away_count _ _ _ _ _ _ Hs).
      by rewrite Hinact, Hreg.
    + intros e He%transitionLog_names Hn. rewrite Hn in He.
      by destruct (timedName_not_transition STATUS_AWAY d (or_introl eq_refl)).
  - rewrite on_returns.
    rewrite (parseEventName_pretty STATUS_AWAY d (or_introl eq_refl) Hd).
    simpl. unfold entriesFor. rewrite filter_app, length_app.
    rewrite filter_cons, decide_True by done. simpl. lia.
Qed.

Lemma timed_event_emitted_once_per_entry_witness :
  let w := world_of ((constructor 5000 None None;;
                      on "away:3000" 1%nat;;
                      on "away:3000" 2%nat) world0) in
  0 ≤ 3000
  ∧ currentStatus (this (world_of (pollStatus 9000 w))) = Some STATUS_AWAY
  ∧ length (filter (fun e => em_name e = "away:3000")
                   (emissions (pollStatus 9000) w)) = 2%nat.
Proof.
  intros w.
  assert (Hd : 0 ≤ 3000) by lia.
  assert (Hs : currentStatus (this (world_of (pollStatus 9000 w)))
               = Some STATUS_AWAY) by reflexivity.
  split_and!; [exact Hd | exact Hs |].
  destruct (timed_event_emitted_once_per_entry w 9000 3000 1%nat Hd Hs)
    as [Hcount _].
  exact Hcount.
Defined.

(** ** From a subscription to the call of the listener *)



(** X9: the same for 'online'.  With the status 'online' since the
    instant [since], after [on("online:<d>", l)] a tick below the idle
    threshold emits 'online:<d>' to a list of listeners that holds [l],
    provided every instant the clock gives from now on is at least d
    after [since]. *)
Theorem subscribed_online_listener_is_called (w : World) (l : Listener)
    (d idleTime since : Z) :
  0 ≤ d →
  currentStatus (this w) = Some STATUS_ONLINE →
  userLastCameOnlineAt (this w) = Some since →
  idleTime < inactivityDuration (this w) →
  (∀ k, (reads w ≤ k)%nat → d ≤ clock w k - since) →
  ∃ e, e ∈ emissions (pollStatus idleTime)
             (world_of (on (timedName STATUS_ONLINE d) l w))
       ∧ em_name e = timedName STATUS_ONLINE d
       ∧ l ∈ em_listeners e.
Proof.
  intros Hd Hs Hsince Hlt Hclock.
  set (name := timedName STATUS_ONLINE d).
  set (entry := TimedEvent.mk (Some STATUS_ONLINE) (Some d) l).
  set (w1 := world_of (on name l w)).
  assert (Hw1 : w1 = with_this
                  (set_events
                     (<[name := listeners_of (this w) name ++ [l]]>
                        (_events (this w)))
                     (set_timedEvents (timedEvents (this w) ++ [entry])
                                      (this w))) w).
  { unfold w1, name. rewrite on_returns.
    rewrite (parseEventName_pretty STATUS_ONLINE d (or_intror eq_refl) Hd).
    done. }
  assert (Hstay : afterTransitions idleTime w1 = w1).
  { unfold afterTransitions. rewrite !decide_False; [done | |].
    - intros [Hs' _]. rewrite Hw1 in Hs'. simpl in Hs'.
      rewrite Hs in Hs'. discriminate.
    - intros [_ Hle]. rewrite Hw1 in Hle. simpl in Hle. lia. }
  exists (entryEmission (this w1) entry). split_and!.
  - rewrite pollStatus_emissions. apply elem_of_app. right.
    unfold timedLogOf. rewrite Hstay. apply timedLog_fires_from.
    + rewrite Hw1. simpl. apply elem_of_app. right. apply list_elem_of_here.
    + intros k Hk. apply entryFires_online; [by rewrite Hw1 |].
      split; [done |]. exists d, since. rewrite Hw1. simpl.
      split_and!; [done | done |]. apply Hclock. by rewrite Hw1 in Hk.
  - reflexivity.
  - simpl. unfold listeners_of.
    change (show_string (Some STATUS_ONLINE) +:+ ":" +:+ show_number (Some d))
      with name.
    rewrite Hw1. simpl. rewrite lookup_insert_eq. simpl.
    apply elem_of_app. right. apply list_elem_of_here.
Qed.

Lemma subscribed_online_listener_is_called_witness :
  let w := world_of (constructor 5000 None None
                       (mkWorld blank (fun k => 1000 + 5000 * Z.of_nat k)
                                0%nat ∅ 0%nat [])) in
  0 ≤ 2000
  ∧ currentStatus (this w) = Some STATUS_ONLINE
  ∧ userLastCameOnlineAt (this w) = Some 1000
  ∧ ∃ e, e ∈ emissions (pollStatus 10) (world_of (on "online:2000" 7%nat w))
         ∧ em_name e = "online:2000" ∧ 7%nat ∈ em_listeners e.
Proof.
  intros w.
  assert (Hd : 0 ≤ 2000) by lia.
  split_and!; [exact Hd | reflexivity | reflexivity |].
  apply (subscribed_online_listener_is_called w 7%nat 2000 10 1000 Hd
           eq_refl eq_refl).
  - simpl. lia.
  - intros k Hk. simpl in *. lia.
Defined.

(** ** [off] and the table of listeners *)

Lemma off_returns name l w :
  off name l w
  = Returned tt
      (with_this
         (withoutListener name l
            (if EventNameInfo.isTimedEvent (parseEventName name)
             then set_timedEvents
                    (filter (fun timedEvent =>
                               TimedEvent.status timedEvent
                               = EventNameInfo.status (parseEventName name)
                               ∧ TimedEvent.duration timedEvent
                                 = EventNameInfo.duration (parseEventName name)
                               ∧ TimedEvent.listener timedEvent = l)
                            (timedEvents (this w))) (this w)
             else this w)) w).
Proof.
  unfold off. destruct (EventNameInfo.isTimedEvent (parseEventName name));
    reflexivity.
Qed.

Lemma remove_first_not_elem l xs : l ∉ xs → remove_first l xs = xs.
Proof.
  induction xs as [| x xs IH]; [done |].
  intros [Hne Hxs]%not_elem_of_cons. simpl.
  rewrite bool_decide_eq_false_2 by done. by rewrite IH.
Qed.

Lemma remove_last_snoc l xs : remove_last l (xs ++ [l]) = xs.
Proof.
  unfold remove_last. rewrite reverse_snoc. simpl.
  rewrite bool_decide_eq_true_2 by done. apply reverse_involutive.
Qed.

Lemma remove_last_not_elem l xs : l ∉ xs → remove_last l xs = xs.
Proof.
  intros Hl. unfold remove_last.
  rewrite remove_first_not_elem by (by rewrite elem_of_reverse).
  apply reverse_involutive.
Qed.

Lemma set_events_same o : set_events (_events o) o = o.
Proof. by destruct o. Qed.

Lemma withoutListener_set_events name l o :
  withoutListener name l o
  = set_events (_events (withoutListener name l o)) o.
Proof.
  unfold withoutListener. destruct (_events o !! name) as [xs |];
    [destruct (remove_last l xs) |]; by destruct o.
Qed.

(** X10: [off(name, l)] right after [on(name, l)] gives back the table of
    listeners as it was before the two calls, for every name; for a name
    that is not a timed one it gives back the whole instance.  And
    [off(name, l)] with a listener that is not registered under a name
    that is not a timed one changes nothing.  (The table is one where no
    name is kept with an empty list, as [EventEmitter] keeps it.) *)
Theorem off_after_on_restores_listeners (name : string) (l : Listener)
    (w : World) :
  _events (this w) !! name ≠ Some [] →
  _events (this (world_of (off name l (world_of (on name l w)))))
  = _events (this w)
  ∧ (¬ matches timedNameExpression name →
     this (world_of (off name l (world_of (on name l w)))) = this w)
  ∧ (¬ matches timedNameExpression name →
     l ∉ listeners_of (this w) name →
     this (world_of (off name l w)) = this w).
Proof.
  intros Hne.
  assert (Hplain : ¬ matches timedNameExpression name →
                   EventNameInfo.isTimedEvent (parseEventName name) = false).
  { intros Hn.
    destruct (EventNameInfo.isTimedEvent (parseEventName name)) eqn:E;
      [| done].
    destruct Hn. by apply matches_timedNameExpression, parseEventName_timed_iff. }
  assert (Hback : ∀ o, _events o = <[name := listeners_of (this w) name ++ [l]]>
                                     (_events (this w)) →
                       _events (withoutListener name l o) = _events (this w)).
  { intros o Ho. unfold withoutListener.
    rewrite Ho, lookup_insert_eq, remove_last_snoc. unfold listeners_of.
    destruct (_events (this w) !! name) as [[| x xs] |] eqn:E; simpl.
    - done.
    - rewrite insert_insert_eq. by apply insert_id.
    - rewrite delete_insert_eq. by apply delete_id. }
  split_and!.
  - rewrite on_returns, off_returns. simpl.
    destruct (EventNameInfo.isTimedEvent (parseEventName name)); simpl;
      by apply Hback.
  - intros Hn. rewrite on_returns, off_returns. simpl.
    rewrite (Hplain Hn). simpl.
    set (o1 := set_events _ (this w)).
    assert (He : _events (withoutListener name l o1) = _events (this w))
      by (by apply Hback).
    rewrite withoutListener_set_events, He. unfold o1.
    by destruct (this w).
  - intros Hn Hl. rewrite off_returns. simpl. rewrite (Hplain Hn).
    unfold withoutListener, listeners_of in *.
    destruct (_events (this w) !! name) as [xs |] eqn:E; [| done].
    simpl in Hl. rewrite (remove_last_not_elem _ _ Hl).
    destruct xs as [| x xs]; [done |].
    rewrite insert_id by done. apply set_events_same.
Qed.

Lemma off_after_on_restores_listeners_witness :
  let w := world_of ((constructor 5000 None None;;
                      on "status-change" 1%nat) world0) in
  _events (this w) !! "status-change" ≠ Some []
  ∧ this (world_of (off "status-change" 2%nat
                        (world_of (on "status-change" 2%nat w)))) = this w.
Proof.
  intros w.
  assert (Hne : _events (this w) !! "status-change" ≠ Some [])
    by discriminate.
  split; [exact Hne |].
  destruct (off_after_on_restores_listeners "status-change" 2%nat w Hne)
    as (_ & Hplain & _).
  apply Hplain.
  intros Hm%matches_timedNameExpression%parseEventName_timed_iff.
  discriminate.
Defined.

(** ** Invariants of an instance, over every run of calls *)

Lemma setStatus_world status w :
  world_of (setStatus status w)
  = if bool_decide (status = STATUS_AWAY)
    then with_this (committed STATUS_AWAY None (this w)) w
    else if bool_decide (status = STATUS_ONLINE)
    then mkWorld (committed STATUS_ONLINE (Some (clock w (reads w))) (this w))
                 (clock w) (S (reads w)) (intervals w) (timerSeq w) (emitted w)
    else w.
Proof.
  case_bool_decide as Ha; [subst; by rewrite setStatus_away |].
  case_bool_decide as Ho; [subst; by rewrite setStatus_online |].
  rewrite setStatus_invalid; [done |].
  rewrite !not_elem_of_cons. split_and!; auto. apply not_elem_of_nil.
Qed.

(** No call changes the threshold or the poll interval, and every call
    keeps the status and the instant of coming online in agreement. *)
Lemma call_keeps_status c w :
  let o' := this (world_of (call c w)) in
  inactivityDuration o' = inactivityDuration (this w)
  ∧ pollInterval o' = pollInterval (this w)
  ∧ (statusConsistent (this w) → statusConsistent o').
Proof.
  unfold statusConsistent. destruct c as [status | | | name l | name l | idle];
    simpl.
  - rewrite setStatus_world. repeat case_bool_decide; simpl;
      split_and!; auto.
  - rewrite init_returns. simpl. auto.
  - rewrite destroy_returns. simpl. auto.
  - rewrite on_returns. simpl.
    destruct (EventNameInfo.isTimedEvent (parseEventName name)); simpl; auto.
  - rewrite off_returns. simpl. rewrite withoutListener_set_events.
    destruct (EventNameInfo.isTimedEvent (parseEventName name)); simpl; auto.
  - rewrite pollStatus_this. unfold afterTransitions.
    repeat case_decide; simpl; split_and!; auto.
Qed.



(** The constructor returns only for a valid initial status. *)
Lemma constructor_returned inactivity poll initial w0 w :
  constructor inactivity poll initial w0 = Returned tt w →
  default STATUS_ONLINE initial ∈ [STATUS_AWAY; STATUS_ONLINE].
Proof.
  intros E.
  destruct (decide (default STATUS_ONLINE initial
                    ∈ [STATUS_AWAY; STATUS_ONLINE])) as [| Hn]; [done |].
  unfold constructor in E. erewrite bind_returned in E by reflexivity.
  by rewrite (setStatus_invalid _ _ Hn) in E.
Qed.

Lemma calls_keep_status cs w :
  statusConsistent (this w) →
  statusConsistent (this (calls cs w))
  ∧ inactivityDuration (this (calls cs w)) = inactivityDuration (this w)
  ∧ pollInterval (this (calls cs w)) = pollInterval (this w).
Proof.
  revert w. induction cs as [| c cs IH]; intros w Hs; simpl; [done |].
  destruct (call_keeps_status c w) as (Hi & Hp & Hk).
  destruct (IH _ (Hk Hs)) as (Hs' & Hi' & Hp').
  split_and!; [done | by rewrite Hi' | by rewrite Hp'].
Qed.



(** X11: in every state an instance can reach, by any sequence of calls
    of [setStatus] (valid or not), [init], [destroy], [on], [off] and poll
    ticks after its construction, the status is 'away' or 'online', the
    instant of coming online is defined exactly when the status is
    'online', and the threshold and the poll interval are the ones given
    to the constructor. *)
Theorem run_keeps_status_consistent (inactivity : Z) (poll : option Z)
    (initial : option string) (w0 w : World) (cs : list Call) :
  constructor inactivity poll initial w0 = Returned tt w →
  validStatus (this (calls cs w))
  ∧ (is_Some (userLastCameOnlineAt (this (calls cs w)))
     ↔ currentStatus (this (calls cs w)) = Some STATUS_ONLINE)
  ∧ inactivityDuration (this (calls cs w)) = inactivity
  ∧ pollInterval (this (calls cs w)) = default 1000 poll.
Proof.
  intros E. pose proof (constructor_returned _ _ _ _ _ E) as Hin.
  destruct (constructor_fields inactivity poll initial w0 Hin)
    as (w1 & E1 & Hi & Hp & Hc & _).
  rewrite E in E1. injection E1 as <-.
  destruct (calls_keep_status cs w Hc) as (Hc' & Hi' & Hp').
  rewrite Hi', Hp'. split_and!; [| | done | done].
  - destruct Hc' as [[? _] | [? _]]; [by left | by right].
  - destruct Hc' as [[Hst Hno] | [Hst Hyes]]; rewrite Hst.
    + rewrite Hno. split; [by intros [? ?] | discriminate].
    + done.
Qed.

Lemma run_keeps_status_consistent_witness :
  let w := world_of (constructor 5000 None None world0) in
  let cs := [CallInit; CallOn "away:3000" 1%nat; CallPoll 9000;
             CallSetStatus "busy"; CallPoll 10; CallDestroy] in
  constructor 5000 None None world0 = Returned tt w
  ∧ validStatus (this (calls cs w))
  ∧ inactivityDuration (this (calls cs w)) = 5000.
Proof.
  intros w cs.
  assert (E : constructor 5000 None None world0 = Returned tt w)
    by reflexivity.
  split; [exact E |].
  destruct (run_keeps_status_consistent 5000 None None world0 w cs E)
    as (Hv & _ & Hi & _).
  split; [exact Hv | exact Hi].
Defined.





(** ** After [destroy] and [init] *)

(** With an empty registry and an empty table of listeners, a tick emits
    status events only and calls no listener. *)
Lemma inert_tick idleTime w e :
  timedEvents (this w) = [] →
  _events (this w) = ∅ →
  e ∈ emissions (pollStatus idleTime) w →
  em_name e ∈ ["status-change"; "status:away"; "status:online"]
  ∧ em_listeners e = [].
Proof.
  intros Hreg Hev He. rewrite pollStatus_emissions in He.
  apply elem_of_app in He as [He | He].
  - split; [by eapply transitionLog_names |].
    unfold transitionLog, awayEmissions, onlineEmissions in He.
    repeat case_decide; rewrite ?elem_of_cons, ?elem_of_nil in He;
      destruct_or!; subst; simpl; unfold listeners_of;
      by rewrite Hev, lookup_empty.
  - unfold timedLogOf in He.
    apply timedLog_elem in He as (te & _ & Hin & _).
    destruct (afterTransitions_frame idleTime w)
      as (_ & _ & _ & Hreg2 & _ & _ & _).
    rewrite Hreg2, Hreg in Hin. by apply elem_of_nil in Hin.
Qed.

(** X14: [destroy] and [init] drop every subscription made before them.
    In any run of poll ticks after [destroy], or after [init], no timed
    event is emitted and no listener is called, whatever was registered
    before: the ticks emit status events only, to no one.  A listener has
    to be registered after [init] to be called. *)
Theorem teardown_drops_subscriptions (w : World) (samples : list Z)
    (log : list Emission) (e : Emission) :
  log ∈ tickLogs samples (world_of (destroy w))
  ∨ log ∈ tickLogs samples (world_of (init w)) →
  e ∈ log →
  em_name e ∈ ["status-change"; "status:away"; "status:online"]
  ∧ em_listeners e = [].
Proof.
  assert (Hrun : ∀ w1, timedEvents (this w1) = [] → _events (this w1) = ∅ →
            log ∈ tickLogs samples w1 → e ∈ log →
            em_name e ∈ ["status-change"; "status:away"; "status:online"]
            ∧ em_listeners e = []).
  { induction samples as [| idleTime rest IH]; intros w1 Hreg Hev; simpl.
    - by intros ?%elem_of_nil.
    - destruct (pollStatus_frame idleTime w1) as (_ & Hreg' & Hev' & _).
      intros [-> | Hlog]%elem_of_cons He.
      + by eapply inert_tick.
      + eapply IH; [| | exact Hlog | exact He].
        * by rewrite Hreg'.
        * by rewrite Hev'. }
  intros [Hlog | Hlog] He.
  - apply (Hrun (world_of (destroy w))); try done;
      by rewrite destroy_returns.
  - apply (Hrun (world_of (init w))); try done; by rewrite init_returns.
Qed.

Lemma teardown_drops_subscriptions_witness :
  let w := world_of ((constructor 5000 None None;;
                      on "away:3000" 1%nat;;
                      on "status-change" 2%nat) world0) in
  let e := mkEmission "status-change" (Some (Payload.mk "online" "away"))
                      [] (this (world_of (init w))) in
  let log := emissions (pollStatus 9000) (world_of (init w)) in
  log ∈ tickLogs [9000] (world_of (init w))
  ∧ e ∈ log
  ∧ em_listeners e = []
  ∧ names log = ["status-change"; "status:away"].
Proof.
  intros w e log.
  assert (Hlog : log ∈ tickLogs [9000] (world_of (init w)))
    by apply list_elem_of_here.
  assert (He : e ∈ log) by apply list_elem_of_here.
  split_and!; [exact Hlog | exact He | | reflexivity].
  exact (proj2 (teardown_drops_subscriptions w [9000] log e
                  (or_intror Hlog) He)).
Defined.

(** ** The order of the events of a tick *)

Lemma timedLog_away_due o clk idleTime r entries :
  currentStatus o = Some STATUS_AWAY →
  (timedLog o clk idleTime r entries).1
  = entryEmission o <$> filter (awayDue o idleTime) entries.
Proof.
  intros Hs. revert r. induction entries as [| te rest IH]; intros r;
    [done |].
  simpl timedLog.
  destruct (timedLog o clk idleTime
              (if entryReadsClock o te then S r else r) rest)
    as [log r'] eqn:E.
  specialize (IH (if entryReadsClock o te then S r else r)).
  rewrite E in IH. cbn [fst] in *. rewrite IH, filter_cons.
  pose proof (entryFires_away o idleTime (clk r) te Hs) as Hf.
  destruct (entryFires o idleTime (clk r) te).
  - destruct (proj1 Hf eq_refl) as (Hst & d & Hd & Hle).
    rewrite decide_True; [done |]. unfold awayDue. by rewrite Hd.
  - rewrite decide_False; [done |]. unfold awayDue.
    intros [Hst Hd]. destruct (TimedEvent.duration te) as [d |]; [| done].
    assert (false = true); [| done]. apply Hf. split; [done |]. by exists d.
Qed.

(** X15: the log of a tick that ends with the status 'away' is the
    events of the status part followed by one timed event for every entry
    that is due, in the order of the registry, which is the order of the
    subscriptions: an entry is due when its status is 'away' and the idle
    time beyond [inactivityDuration] has reached its threshold. *)
Theorem away_tick_log_in_registry_order (w : World) (idleTime : Z) :
  currentStatus (this (world_of (pollStatus idleTime w))) = Some STATUS_AWAY →
  emissions (pollStatus idleTime) w
  = emissions (transitions idleTime) w
    ++ (entryEmission (this (world_of (pollStatus idleTime w)))
        <$> filter (awayDue (this w) idleTime) (timedEvents (this w))).
Proof.
  rewrite pollStatus_this. intros Hs.
  destruct (afterTransitions_frame idleTime w)
    as (Hinact & _ & _ & Hreg & _ & _ & _).
  rewrite pollStatus_emissions, transitions_emissions. f_equal.
  unfold timedLogOf. rewrite (timedLog_away_due _ _ _ _ _ Hs), Hreg.
  f_equal. apply list_filter_iff. intros te. unfold awayDue.
  by rewrite Hinact.
Qed.

Lemma away_tick_log_in_registry_order_witness :
  let w := world_of ((constructor 5000 None None;;
                      on "away:3000" 1%nat;;
                      on "online:0" 2%nat;;
                      on "away:9000" 3%nat;;
                      on "away:1000" 4%nat) world0) in
  currentStatus (this (world_of (pollStatus 9000 w))) = Some STATUS_AWAY
  ∧ names (emissions (pollStatus 9000) w)
    = ["status-change"; "status:away"; "away:3000"; "away:1000"].
Proof.
  intros w.
  assert (Hs : currentStatus (this (world_of (pollStatus 9000 w)))
               = Some STATUS_AWAY) by reflexivity.
  split; [exact Hs |].
  rewrite (away_tick_log_in_registry_order w 9000 Hs). reflexivity.
Defined.

(** ** Leading zeros, in general *)








